(** * posting/collection.py: request documents and the collection tree

    A shallow embedding of [src/posting/collection.py].

    Python values are modelled as the code has them: a [str] is a sequence
    of Unicode code points, a [dict] is an insertion-ordered association
    list, model classes are records.  The libraries the module calls
    (pydantic, PyYAML, pathlib, httpx) are modelled only as far as the module
    uses them; each such model says what it covers. *)

From Stdlib Require Import List NArith ZArith Bool Lia String Ascii.
From Stdlib Require Import Permutation.
From Stdlib Require Import Floats.SpecFloat.
Import ListNotations.

Set Implicit Arguments.
Local Set Warnings "-register-all".

(* ================================================================= *)
(** ** Python strings *)

(** A Python [str]: a sequence of code points. *)
Definition char := N.
Definition str := list char.

(** Literals: each character of a Rocq string stands for the code point of
    the same number. *)
Definition u (s : string) : str := map N_of_ascii (list_ascii_of_string s).

Definition LF : char := 10%N.
Definition CR : char := 13%N.

Definition char_eqb (a b : char) : bool := N.eqb a b.

Fixpoint str_eqb (a b : str) : bool :=
  match a, b with
  | [], [] => true
  | x :: a', y :: b' => char_eqb x y && str_eqb a' b'
  | _, _ => false
  end.

(** [data.count(c)] for a one-character needle. *)
Definition count (c : char) (data : str) : nat :=
  List.length (filter (char_eqb c) data).

(** Line boundaries of [str.splitlines]. *)
Definition is_linebreak (c : char) : bool :=
  (N.leb 10 c && N.leb c 13) || (N.leb 28 c && N.leb c 30)
  || N.eqb c 133 || N.eqb c 8232 || N.eqb c 8233.

(** Whitespace of [str.isspace], the characters [rstrip()] removes. *)
Definition is_space (c : char) : bool :=
  (N.leb 9 c && N.leb c 13) || (N.leb 28 c && N.leb c 32)
  || N.eqb c 133 || N.eqb c 160 || N.eqb c 5760
  || (N.leb 8192 c && N.leb c 8202)
  || N.eqb c 8232 || N.eqb c 8233 || N.eqb c 8239 || N.eqb c 8287
  || N.eqb c 12288.

(** [splitlines_from line s]: [line] is the part of the current line read so
    far.  A line ends at a line boundary ([\r\n] counts once); a last line
    without a boundary is kept only when it is not empty. *)
Fixpoint splitlines_from (line : str) (s : str) : list str :=
  match s with
  | [] => match line with [] => [] | _ => [line] end
  | c :: rest =>
      if is_linebreak c then
        line ::
        (if char_eqb c CR then
           match rest with
           | d :: rest' =>
               if char_eqb d LF then splitlines_from [] rest'
               else splitlines_from [] rest
           | [] => splitlines_from [] rest
           end
         else splitlines_from [] rest)
      else splitlines_from (line ++ [c]) rest
  end.

Definition splitlines (s : str) : list str := splitlines_from [] s.

(** [line.rstrip()]. *)
Fixpoint rstrip (s : str) : str :=
  match s with
  | [] => []
  | c :: rest =>
      match rstrip rest with
      | [] => if is_space c then [] else [c]
      | r => c :: r
      end
  end.

(** [sep.join(parts)]. *)
Fixpoint join (sep : str) (parts : list str) : str :=
  match parts with
  | [] => []
  | [p] => p
  | p :: ps => p ++ sep ++ join sep ps
  end.

(* ================================================================= *)
(** ** YAML representation nodes

    What a PyYAML representer returns.  A scalar node carries the value of
    its tag ([str], [bool], [null], [int], [float], [binary]) rather than the
    spelling the emitter gives it, and the style the representer asked for.
    Writing nodes as text and parsing them back is PyYAML's business and is
    not modelled: a document is its node. *)

Inductive Scalar :=
| SNull
| SBool (b : bool)
| SInt (z : Z)
| SFloat (f : spec_float)
| SStr (s : str)
| SBinary (b : list N).

Inductive Node :=
| ScalarNode (value : Scalar) (style : option char)
| SequenceNode (items : list Node)
| MappingNode (pairs : list (Node * Node))
| ObjectNode.

(** The literal block style indicator. *)
Definition PIPE : char := 124%N.

(** [str_presenter(dumper, data)]. *)
Definition str_presenter (data : str) : Node :=
  if Nat.ltb 0 (count LF data) then
    let data := join [LF] (map rstrip (splitlines data)) in
    ScalarNode (SStr data) (Some PIPE)
  else ScalarNode (SStr data) None.


Definition node_str (n : Node) : option str :=
  match n with ScalarNode (SStr s) _ => Some s | _ => None end.

(** The string a document holds for [data] once it went through
    [str_presenter]. *)
Definition presented (data : str) : str :=
  match node_str (str_presenter data) with Some s => s | None => data end.


(** More [str] methods, used on paths.  [os.path.sep] is one character. *)

(** [s.split(sep)] for a one-character separator. *)
Fixpoint str_split (sep : char) (s : str) : list str :=
  match s with
  | [] => [[]]
  | c :: rest =>
      if char_eqb c sep then [] :: str_split sep rest
      else match str_split sep rest with
           | h :: t => (c :: h) :: t
           | [] => [[c]]
           end
  end.

Definition in_chars (chars : str) (c : char) : bool := existsb (char_eqb c) chars.

Fixpoint lstrip_chars (chars : str) (s : str) : str :=
  match s with
  | [] => []
  | c :: rest => if in_chars chars c then lstrip_chars chars rest else s
  end.

Definition rstrip_chars (chars : str) (s : str) : str :=
  rev (lstrip_chars chars (rev s)).

(** [s.strip(chars)]. *)
Definition strip (chars : str) (s : str) : str :=
  rstrip_chars chars (lstrip_chars chars s).

(** [s.endswith(suffix)]. *)
Fixpoint startswith (prefix s : str) : bool :=
  match prefix, s with
  | [], _ => true
  | p :: prefix', c :: s' => char_eqb p c && startswith prefix' s'
  | _ :: _, [] => false
  end.

Definition endswith (suffix s : str) : bool := startswith (rev suffix) (rev s).

(* ================================================================= *)
(** ** Exceptions *)

Inductive Exception :=
| OSError
| YAMLError
| TypeError
| ValidationError
| AttributeError (attr : str).

Definition result (A : Type) : Type := Exception + A.

Definition raise {A} (e : Exception) : result A := inl e.
Definition ret {A} (a : A) : result A := inr a.

Definition bind {A B} (m : result A) (k : A -> result B) : result B :=
  match m with
  | inl e => inl e
  | inr a => k a
  end.

Notation "x <- m ;; k" := (bind m (fun x => k))
  (at level 61, m at next level, right associativity).

Fixpoint mapM {A B} (f : A -> result B) (l : list A) : result (list B) :=
  match l with
  | [] => ret []
  | x :: xs => y <- f x ;; ys <- mapM f xs ;; ret (y :: ys)
  end.

(* ================================================================= *)
(** ** pathlib (POSIX flavour)

    A pure path is a root ([""], ["/"] or ["//"]) and its parts; empty and
    ["."] components disappear when a path is made from a string.  [".."]
    is kept as a name, and symbolic links are not modelled. *)

Definition SLASH : char := 47%N.
Definition DOT : char := 46%N.

(** [os.path.sep] *)
Definition os_path_sep : str := [SLASH].

Record Path := mkPath { root : str; parts : list str }.

Definition is_part (x : str) : bool :=
  negb (str_eqb x []) && negb (str_eqb x [DOT]).

(** [Path(s)] *)
Definition Path_of (s : str) : Path :=
  let r := match s with
           | a :: b :: c :: _ =>
               if char_eqb a SLASH then
                 if char_eqb b SLASH && negb (char_eqb c SLASH)
                 then [SLASH; SLASH] else [SLASH]
               else []
           | [a; b] =>
               if char_eqb a SLASH then
                 if char_eqb b SLASH then [SLASH; SLASH] else [SLASH]
               else []
           | [a] => if char_eqb a SLASH then [SLASH] else []
           | [] => []
           end in
  mkPath r (filter is_part (str_split SLASH s)).

(** [str(p)] *)
Definition Path_str (p : Path) : str :=
  match root p, parts p with
  | [], [] => [DOT]
  | r, ps => r ++ join [SLASH] ps
  end.

(** [p.name] *)
Definition Path_name (p : Path) : str := last (parts p) [].

(** [p / part] *)
Definition Path_div (p : Path) (part : str) : Path :=
  let q := Path_of part in
  match root q with
  | [] => mkPath (root p) (parts p ++ parts q)
  | _ => q
  end.

(** The path of a file below a directory, given its relative parts. *)
Definition below (directory_path : Path) (rel : list str) : Path :=
  mkPath (root directory_path) (parts directory_path ++ rel).

(** [p.parent] *)
Definition Path_parent (p : Path) : Path :=
  mkPath (root p) (removelast (parts p)).

Definition Path_eqb (p q : Path) : bool :=
  str_eqb (root p) (root q)
  && (fix go (a b : list str) : bool :=
        match a, b with
        | [], [] => true
        | x :: a', y :: b' => str_eqb x y && go a' b'
        | _, _ => false
        end) (parts p) (parts q).

(* ================================================================= *)
(** ** Python objects

    The values the module handles at run time: plain data (what
    [yaml.safe_load] can build), paths, secrets and model instances.  A
    [dict] keeps insertion order; its keys are strings (mappings keyed by
    anything else are outside this universe). *)

Inductive ModelClass :=
| cAuth | cBasicAuth | cDigestAuth | cHeader | cFormItem | cQueryParam
| cCookie | cOptions | cRequestModel.

Inductive pyobj :=
| ONone
| OBool (b : bool)
| OInt (z : Z)
| OFloat (f : spec_float)
| OStr (s : str)
| OBytes (b : list N)
| OList (items : list pyobj)
| ODict (items : list (str * pyobj))
| OPath (p : Path)
| OSecretStr (s : str)
| OModel (cls : ModelClass) (attrs : list (str * pyobj)).

Definition dict := list (str * pyobj).

(** [d.get(k)] / [k in d] *)
Fixpoint lookup {A} (k : str) (d : list (str * A)) : option A :=
  match d with
  | [] => None
  | (k', v) :: d' => if str_eqb k k' then Some v else lookup k d'
  end.

Definition keys {A} (d : list (str * A)) : list str := map fst d.

(** [d[k] = v]: a present key keeps its place, a new key goes last. *)
Fixpoint dict_set {A} (k : str) (v : A) (d : list (str * A)) : list (str * A) :=
  match d with
  | [] => [(k, v)]
  | (k', v') :: d' =>
      if str_eqb k k' then (k, v) :: d' else (k', v') :: dict_set k v d'
  end.

Definition ModelClass_eqb (a b : ModelClass) : bool :=
  match a, b with
  | cAuth, cAuth | cBasicAuth, cBasicAuth | cDigestAuth, cDigestAuth
  | cHeader, cHeader | cFormItem, cFormItem | cQueryParam, cQueryParam
  | cCookie, cCookie | cOptions, cOptions | cRequestModel, cRequestModel => true
  | _, _ => false
  end.

Fixpoint bytes_eqb (a b : list N) : bool :=
  match a, b with
  | [], [] => true
  | x :: a', y :: b' => N.eqb x y && bytes_eqb a' b'
  | _, _ => false
  end.

(** Python's [==], as [exclude_defaults] uses it to compare a value with
    its declared default.  Floats compare as IEEE numbers; items of lists,
    dicts and instances compare in order (no declared default is a dict, so
    a dict only ever meets [None] here); values of different kinds are
    unequal (the numeric tower, where [True == 1 == 1.0], is not needed: no
    field mixes them). *)
Fixpoint py_eq (a b : pyobj) : bool :=
  let items_eq :=
    fix items_eq (xs ys : list pyobj) : bool :=
      match xs, ys with
      | [], [] => true
      | x :: xs', y :: ys' => py_eq x y && items_eq xs' ys'
      | _, _ => false
      end in
  let attrs_eq :=
    fix attrs_eq (xs ys : list (str * pyobj)) : bool :=
      match xs, ys with
      | [], [] => true
      | (k, x) :: xs', (k', y) :: ys' =>
          str_eqb k k' && py_eq x y && attrs_eq xs' ys'
      | _, _ => false
      end in
  match a, b with
  | ONone, ONone => true
  | OBool x, OBool y => Bool.eqb x y
  | OInt x, OInt y => Z.eqb x y
  | OFloat x, OFloat y => SFeqb x y
  | OStr x, OStr y => str_eqb x y
  | OBytes x, OBytes y => bytes_eqb x y
  | OList xs, OList ys => items_eq xs ys
  | ODict xs, ODict ys => attrs_eq xs ys
  | OPath p, OPath q => Path_eqb p q
  | OSecretStr x, OSecretStr y => str_eqb x y
  | OModel c xs, OModel c' ys => ModelClass_eqb c c' && attrs_eq xs ys
  | _, _ => false
  end.

Definition is_none (o : pyobj) : bool :=
  match o with ONone => true | _ => false end.

(** Python [float(z)] for an [int] in range: round to nearest even. *)
Definition float_of_Z (z : Z) : spec_float := binary_normalize 53 1024 z 0 false.

(* ================================================================= *)
(** ** pydantic field declarations *)

(** [Field(default=..., exclude=...)].  [default = None] (the Rocq option)
    is a field without default; [default_factory=f] is recorded as the value
    [f()] that pydantic compares against. *)
Record FieldInfo := mkField { default : option pyobj; exclude : bool }.

Definition required : FieldInfo := mkField None false.
Definition Field (d : pyobj) : FieldInfo := mkField (Some d) false.
Definition Field_exclude (d : pyobj) : FieldInfo := mkField (Some d) true.

(** The fields a class body declares: a name declared again keeps the place
    of its first declaration and takes the value of the last one, as
    assignments in a class namespace do. *)
Definition collect_fields (body : list (str * FieldInfo)) : list (str * FieldInfo) :=
  fold_left (fun ns kv => dict_set (fst kv) (snd kv) ns) body [].

(* ================================================================= *)
(** ** The model classes *)

Inductive HttpRequestMethod := GET | POST | PUT | DELETE | PATCH | HEAD | OPTIONS.

Definition HttpRequestMethod_str (m : HttpRequestMethod) : str :=
  match m with
  | GET => u "GET" | POST => u "POST" | PUT => u "PUT" | DELETE => u "DELETE"
  | PATCH => u "PATCH" | HEAD => u "HEAD" | OPTIONS => u "OPTIONS"
  end.

Inductive AuthType := basic_auth | digest_auth.

Definition AuthType_str (t : AuthType) : str :=
  match t with basic_auth => u "basic" | digest_auth => u "digest" end.

(** [SecretStr] fields hold their text. *)
Module BasicAuth.
Record t := mk { username : str; password : str }.
End BasicAuth.

Module DigestAuth.
Record t := mk { username : str; password : str }.
End DigestAuth.

Module Auth.
Record t := mk {
  type : option AuthType;
  basic : option BasicAuth.t;
  digest : option DigestAuth.t }.
End Auth.

Module Header.
Record t := mk { name : str; value : str; enabled : bool }.
End Header.

Module FormItem.
Record t := mk { name : str; value : str; enabled : bool }.
End FormItem.

Module QueryParam.
Record t := mk { name : str; value : str; enabled : bool }.
End QueryParam.

Module Cookie.
Record t := mk { name : str; value : str; enabled : bool }.
End Cookie.

Module Options.
Record t := mk {
  follow_redirects : bool;
  verify_ssl : bool;
  attach_cookies : bool;
  proxy_url : str;
  timeout : spec_float }.
End Options.

Module RequestModel.
Record t := mk {
  name : str;
  description : str;
  method : HttpRequestMethod;
  url : str;
  path : option Path;
  json_body : option dict;
  form_data : option dict;
  content : option (str + list N);
  auth : option Auth.t;
  headers : list Header.t;
  params : list QueryParam.t;
  cookies : list Cookie.t;
  posting_version : str;
  options : Options.t }.
End RequestModel.

(** An instance as a Python object: its class and its attributes, in field
    order. *)

Definition opt_obj {A} (f : A -> pyobj) (o : option A) : pyobj :=
  match o with Some a => f a | None => ONone end.

Definition BasicAuth_obj (a : BasicAuth.t) : pyobj :=
  OModel cBasicAuth
    [ (u "username", OSecretStr (BasicAuth.username a));
      (u "password", OSecretStr (BasicAuth.password a)) ].

Definition DigestAuth_obj (a : DigestAuth.t) : pyobj :=
  OModel cDigestAuth
    [ (u "username", OSecretStr (DigestAuth.username a));
      (u "password", OSecretStr (DigestAuth.password a)) ].

Definition Auth_obj (a : Auth.t) : pyobj :=
  OModel cAuth
    [ (u "type", opt_obj (fun t => OStr (AuthType_str t)) (Auth.type a));
      (u "basic", opt_obj BasicAuth_obj (Auth.basic a));
      (u "digest", opt_obj DigestAuth_obj (Auth.digest a)) ].

Definition Header_obj (h : Header.t) : pyobj :=
  OModel cHeader
    [ (u "name", OStr (Header.name h));
      (u "value", OStr (Header.value h));
      (u "enabled", OBool (Header.enabled h)) ].

Definition FormItem_obj (h : FormItem.t) : pyobj :=
  OModel cFormItem
    [ (u "name", OStr (FormItem.name h));
      (u "value", OStr (FormItem.value h));
      (u "enabled", OBool (FormItem.enabled h)) ].

Definition QueryParam_obj (h : QueryParam.t) : pyobj :=
  OModel cQueryParam
    [ (u "name", OStr (QueryParam.name h));
      (u "value", OStr (QueryParam.value h));
      (u "enabled", OBool (QueryParam.enabled h)) ].

Definition Cookie_obj (h : Cookie.t) : pyobj :=
  OModel cCookie
    [ (u "name", OStr (Cookie.name h));
      (u "value", OStr (Cookie.value h));
      (u "enabled", OBool (Cookie.enabled h)) ].

Definition Options_obj (o : Options.t) : pyobj :=
  OModel cOptions
    [ (u "follow_redirects", OBool (Options.follow_redirects o));
      (u "verify_ssl", OBool (Options.verify_ssl o));
      (u "attach_cookies", OBool (Options.attach_cookies o));
      (u "proxy_url", OStr (Options.proxy_url o));
      (u "timeout", OFloat (Options.timeout o)) ].

Definition content_obj (c : str + list N) : pyobj :=
  match c with inl s => OStr s | inr b => OBytes b end.

(** [self.__dict__] *)
Definition RequestModel_dict (self : RequestModel.t) : dict :=
  [ (u "name", OStr (RequestModel.name self));
    (u "description", OStr (RequestModel.description self));
    (u "method", OStr (HttpRequestMethod_str (RequestModel.method self)));
    (u "url", OStr (RequestModel.url self));
    (u "path", opt_obj OPath (RequestModel.path self));
    (u "json_body", opt_obj ODict (RequestModel.json_body self));
    (u "form_data", opt_obj ODict (RequestModel.form_data self));
    (u "content", opt_obj content_obj (RequestModel.content self));
    (u "auth", opt_obj Auth_obj (RequestModel.auth self));
    (u "headers", OList (map Header_obj (RequestModel.headers self)));
    (u "params", OList (map QueryParam_obj (RequestModel.params self)));
    (u "cookies", OList (map Cookie_obj (RequestModel.cookies self)));
    (u "posting_version", OStr (RequestModel.posting_version self));
    (u "options", Options_obj (RequestModel.options self)) ].

Definition RequestModel_obj (self : RequestModel.t) : pyobj :=
  OModel cRequestModel (RequestModel_dict self).

(** The class bodies, one entry per declaration, in source order. *)

Definition Auth_class : list (str * FieldInfo) :=
  [ (u "type", Field ONone);
    (u "basic", Field ONone);
    (u "digest", Field ONone) ].

Definition BasicAuth_class : list (str * FieldInfo) :=
  [ (u "username", Field (OStr [])); (u "password", Field (OStr [])) ].

Definition DigestAuth_class : list (str * FieldInfo) :=
  [ (u "username", Field (OStr [])); (u "password", Field (OStr [])) ].

Definition Header_class : list (str * FieldInfo) :=
  [ (u "name", required); (u "value", required); (u "enabled", Field (OBool true)) ].

Definition FormItem_class : list (str * FieldInfo) :=
  [ (u "name", required); (u "value", required); (u "enabled", Field (OBool true)) ].

Definition QueryParam_class : list (str * FieldInfo) :=
  [ (u "name", required); (u "value", required); (u "enabled", Field (OBool true)) ].

Definition Cookie_class : list (str * FieldInfo) :=
  [ (u "name", required); (u "value", required); (u "enabled", Field (OBool true)) ].

Definition Options_class : list (str * FieldInfo) :=
  [ (u "follow_redirects", Field (OBool true));
    (u "verify_ssl", Field (OBool true));
    (u "attach_cookies", Field (OBool true));
    (u "proxy_url", Field (OStr []));
    (u "timeout", Field (OFloat (float_of_Z 5))) ].

(** [Options()] *)
Definition Options_default : Options.t :=
  Options.mk true true true [] (float_of_Z 5).

(** [obj.attr]: an attribute an instance does not have raises
    [AttributeError]. *)
Definition getattr (obj : pyobj) (attr : str) : result pyobj :=
  match obj with
  | OModel _ attrs =>
      match lookup attr attrs with
      | Some v => ret v
      | None => raise (AttributeError attr)
      end
  | _ => raise (AttributeError attr)
  end.

(* ================================================================= *)
(** ** [RequestModel.to_httpx] *)

(** What [client.build_request] is given. *)
Module Request.
Record t := mk {
  method : pyobj;
  url : pyobj;
  content : pyobj;
  headers : list (str * str);
  params : list (str * str);
  cookies : list (str * str) }.
End Request.

(** The arguments of the call are evaluated in the order written:
    [self.method], [self.url], [self.body], then the three lists. *)
Definition to_httpx (self : RequestModel.t) : result Request.t :=
  method <- getattr (RequestModel_obj self) (u "method") ;;
  url <- getattr (RequestModel_obj self) (u "url") ;;
  content <- getattr (RequestModel_obj self) (u "body") ;;
  let headers :=
    map (fun header => (Header.name header, Header.value header))
        (filter Header.enabled (RequestModel.headers self)) in
  let params :=
    map (fun param => (QueryParam.name param, QueryParam.value param))
        (filter QueryParam.enabled (RequestModel.params self)) in
  let cookies :=
    map (fun cookie => (Cookie.name cookie, Cookie.value cookie))
        (filter Cookie.enabled (RequestModel.cookies self)) in
  ret (Request.mk method url content headers params cookies).

(* ================================================================= *)
(** ** [Collection] *)

Inductive Collection :=
| mkCollection (path : Path) (name : str) (requests : list RequestModel.t)
               (children : list Collection).

Definition Collection_path (c : Collection) : Path :=
  match c with mkCollection p _ _ _ => p end.
Definition Collection_name (c : Collection) : str :=
  match c with mkCollection _ n _ _ => n end.
Definition Collection_requests (c : Collection) : list RequestModel.t :=
  match c with mkCollection _ _ rs _ => rs end.
Definition Collection_children (c : Collection) : list Collection :=
  match c with mkCollection _ _ _ cs => cs end.

(** The search among the children of the current level for [part]: the walk
    goes on ([descend]) in the first child of that name, or, when there is
    none, in [new_collection], appended to the children. *)
Fixpoint enter (part : str) (descend : Collection -> Collection)
    (new_collection : Collection) (children : list Collection)
  : list Collection :=
  match children with
  | [] => [descend new_collection]
  | child :: others =>
      if str_eqb (Collection_name child) part
      then descend child :: others
      else child :: enter part descend new_collection others
  end.

(** The walk of [from_directory] for one request: from [current_level],
    one [part] at a time; the request is appended where the walk ends.
    Every node is held by one parent only, so the update in place is the
    rebuilt tree. *)
Fixpoint add_request (path_parts : list str) (subpath : Path)
    (request : RequestModel.t) (current_level : Collection) : Collection :=
  match path_parts with
  | [] =>
      mkCollection (Collection_path current_level) (Collection_name current_level)
        (Collection_requests current_level ++ [request])
        (Collection_children current_level)
  | part :: rest =>
      let subpath := Path_div subpath part in
      mkCollection (Collection_path current_level) (Collection_name current_level)
        (Collection_requests current_level)
        (enter part (add_request rest subpath request)
           (mkCollection subpath part [] [])
           (Collection_children current_level))
  end.

Section Posting.

(** [posting.version.VERSION]: the module is not part of the sources read
    here, so its value is a parameter. *)
Variable VERSION : str.

Definition RequestModel_class : list (str * FieldInfo) :=
  [ (u "name", Field (OStr []));
    (u "description", Field (OStr []));
    (u "method", Field (OStr (u "GET")));
    (u "url", Field (OStr []));
    (u "path", Field_exclude ONone);
    (u "json_body", Field ONone);
    (u "form_data", Field ONone);
    (u "content", Field ONone);
    (u "auth", Field ONone);
    (u "headers", Field (OList []));
    (u "params", Field (OList []));
    (u "cookies", Field_exclude (OList []));
    (u "auth", Field_exclude ONone);
    (u "posting_version", Field (OStr VERSION));
    (u "options", Field (Options_obj Options_default)) ].

(** [cls.model_fields] *)
Definition model_fields (cls : ModelClass) : list (str * FieldInfo) :=
  collect_fields
    match cls with
    | cAuth => Auth_class
    | cBasicAuth => BasicAuth_class
    | cDigestAuth => DigestAuth_class
    | cHeader => Header_class
    | cFormItem => FormItem_class
    | cQueryParam => QueryParam_class
    | cCookie => Cookie_class
    | cOptions => Options_class
    | cRequestModel => RequestModel_class
    end.

(** [RequestModel()] *)
Definition RequestModel_default : RequestModel.t :=
  RequestModel.mk [] [] GET [] None None None None None [] [] [] VERSION
    Options_default.

(* ================================================================= *)
(** ** [model_dump(exclude_defaults=True, exclude_none=True)] *)

Definition is_default (info : FieldInfo) (v : pyobj) : bool :=
  match default info with
  | Some d => py_eq v d
  | None => false
  end.

(** One attribute of an instance: left out when its field is declared with
    [exclude=True], when it is [None], or when it equals the declared
    default; otherwise dumped in turn. *)
Definition dump_attr (to_python : pyobj -> pyobj) (fields : list (str * FieldInfo))
    (kv : str * pyobj) : dict :=
  match lookup (fst kv) fields with
  | None => []
  | Some info =>
      if exclude info then []
      else if is_none (snd kv) then []
      else if is_default info (snd kv) then []
      else [(fst kv, to_python (snd kv))]
  end.

(** Values are dumped recursively; [exclude_none] and [exclude_defaults]
    act on the fields of instances, not on the items of plain dicts and
    lists. *)
Fixpoint to_python (o : pyobj) : pyobj :=
  match o with
  | OList items => OList (map to_python items)
  | ODict items => ODict (map (fun kv => (fst kv, to_python (snd kv))) items)
  | OModel cls attrs =>
      ODict (flat_map (dump_attr to_python (model_fields cls)) attrs)
  | _ => o
  end.

Definition model_dump (self : RequestModel.t) : pyobj :=
  to_python (RequestModel_obj self).

(* ================================================================= *)
(** ** PyYAML: representing and constructing *)

(** [Representer.represent_data], with [str_presenter] registered for [str]
    (dict keys are represented like any other string).  Objects that are not
    plain data get a Python-specific node, which [safe_load] refuses. *)
Fixpoint represent (o : pyobj) : Node :=
  match o with
  | ONone => ScalarNode SNull None
  | OBool b => ScalarNode (SBool b) None
  | OInt z => ScalarNode (SInt z) None
  | OFloat f => ScalarNode (SFloat f) None
  | OStr s => str_presenter s
  | OBytes b => ScalarNode (SBinary b) (Some PIPE)
  | OList items => SequenceNode (map represent items)
  | ODict items =>
      MappingNode (map (fun kv => (str_presenter (fst kv), represent (snd kv))) items)
  | OPath _ | OSecretStr _ | OModel _ _ => ObjectNode
  end.

Definition construct_scalar (v : Scalar) : pyobj :=
  match v with
  | SNull => ONone
  | SBool b => OBool b
  | SInt z => OInt z
  | SFloat f => OFloat f
  | SStr s => OStr s
  | SBinary b => OBytes b
  end.

Definition construct_sequence (construct : Node -> result pyobj)
  : list Node -> result (list pyobj) :=
  fix go (items : list Node) : result (list pyobj) :=
    match items with
    | [] => ret []
    | n :: rest => v <- construct n ;; vs <- go rest ;; ret (v :: vs)
    end.

(** [construct_mapping]: pairs are taken in order, [mapping[key] = value]. *)
Definition construct_mapping (construct : Node -> result pyobj)
  : list (Node * Node) -> dict -> result dict :=
  fix go (pairs : list (Node * Node)) (mapping : dict) : result dict :=
    match pairs with
    | [] => ret mapping
    | (key_node, value_node) :: rest =>
        key <- construct key_node ;;
        match key with
        | OStr k =>
            value <- construct value_node ;;
            go rest (dict_set k value mapping)
        | _ => raise YAMLError
        end
    end.

(** [SafeConstructor.construct_object] *)
Fixpoint construct (n : Node) : result pyobj :=
  match n with
  | ScalarNode v _ => ret (construct_scalar v)
  | SequenceNode items =>
      vs <- construct_sequence construct items ;; ret (OList vs)
  | MappingNode pairs =>
      d <- construct_mapping construct pairs [] ;; ret (ODict d)
  | ObjectNode => raise YAMLError
  end.

(** The text of a file, as far as PyYAML reads it: text it cannot parse, or
    the node it composes. *)
Inductive Text :=
| Unparsable
| Document (n : Node).

(** [yaml.dump(content, None, sort_keys=False)] *)
Definition yaml_dump (content : pyobj) : Text := Document (represent content).

(** [yaml.safe_load(file)] *)
Definition yaml_safe_load (t : Text) : result pyobj :=
  match t with
  | Unparsable => raise YAMLError
  | Document n => construct n
  end.

(** The keys of a document. *)
Definition document_keys (t : Text) : list str :=
  match t with
  | Document (MappingNode pairs) =>
      flat_map (fun kv => match node_str (fst kv) with
                          | Some k => [k]
                          | None => []
                          end) pairs
  | _ => []
  end.

(** The document [save_to_disk] writes for a request: its lines
    [content = self.model_dump(...)] and [yaml_content = yaml.dump(...)].
    Making the directories and writing the file are not modelled. *)
Definition encode (self : RequestModel.t) : Text := yaml_dump (model_dump self).

(* ================================================================= *)
(** ** The world: files and standard output

    Files are listed under absolute pure paths, in the order the platform
    enumerates them; a directory exists where a file lies under it. *)

Inductive Line :=
| Saving (self : RequestModel.t)
| FailedToLoad (file_path : Path) (e : Exception).

Record World := mkWorld {
  cwd : Path;
  entries : list (Path * Text);
  stdout : list Line }.

Definition print (w : World) (l : Line) : World :=
  mkWorld (cwd w) (entries w) (stdout w ++ [l]).

Definition absolute (w : World) (p : Path) : Path :=
  match root p with
  | [] => mkPath (root (cwd w)) (parts (cwd w) ++ parts p)
  | _ => p
  end.

Fixpoint find_file (p : Path) (es : list (Path * Text)) : option Text :=
  match es with
  | [] => None
  | (q, t) :: es' => if Path_eqb p q then Some t else find_file p es'
  end.

(** [open(file_path, "r")] and reading it *)
Definition open (w : World) (file_path : str) : result Text :=
  match find_file (absolute w (Path_of file_path)) (entries w) with
  | Some t => ret t
  | None => raise OSError
  end.

(** [xs] minus the prefix [pre], when [pre] is a prefix. *)
Fixpoint strip_prefix (pre xs : list str) : option (list str) :=
  match pre, xs with
  | [], _ => Some xs
  | a :: pre', x :: xs' => if str_eqb a x then strip_prefix pre' xs' else None
  | _ :: _, [] => None
  end.

(** [fnmatch] for patterns of the form [*suffix]. *)
Definition fnmatch (name pattern : str) : bool :=
  match pattern with
  | c :: suffix => if char_eqb c 42%N then endswith suffix name else str_eqb name pattern
  | [] => str_eqb name pattern
  end.

(** [directory_path.rglob(pattern)]: the files below the directory whose
    name matches, each as the directory path extended by the file's relative
    parts. *)
Definition rglob (w : World) (directory_path : Path) (pattern : str) : list Path :=
  let d := absolute w directory_path in
  flat_map (fun e =>
    if str_eqb (root (fst e)) (root d) then
      match strip_prefix (parts d) (parts (fst e)) with
      | Some (x :: rel) =>
          if fnmatch (last (x :: rel) []) pattern
          then [below directory_path (x :: rel)]
          else []
      | _ => []
      end
    else []) (entries w).

(* ================================================================= *)
(** ** Validation: [RequestModel(data)]

    Values of the declared type are accepted as they are, and an [int] for a
    [float]; pydantic's other lax conversions (["yes"] for a [bool], bytes
    for a [str], ...) are not modelled and count as validation errors.
    Unknown keys are ignored. *)

Definition validate_str (o : pyobj) : result str :=
  match o with OStr s => ret s | _ => raise ValidationError end.

Definition validate_bool (o : pyobj) : result bool :=
  match o with OBool b => ret b | _ => raise ValidationError end.

Definition validate_float (o : pyobj) : result spec_float :=
  match o with
  | OFloat f => ret f
  | OInt z => ret (float_of_Z z)
  | _ => raise ValidationError
  end.

Definition validate_secret (o : pyobj) : result str :=
  match o with
  | OStr s | OSecretStr s => ret s
  | _ => raise ValidationError
  end.

Definition validate_optional {A} (validate : pyobj -> result A) (o : pyobj)
  : result (option A) :=
  match o with
  | ONone => ret None
  | _ => v <- validate o ;; ret (Some v)
  end.

Definition validate_list {A} (validate : pyobj -> result A) (o : pyobj)
  : result (list A) :=
  match o with
  | OList items => mapM validate items
  | _ => raise ValidationError
  end.

Definition validate_dict (o : pyobj) : result dict :=
  match o with ODict d => ret d | _ => raise ValidationError end.

Definition validate_method (o : pyobj) : result HttpRequestMethod :=
  match o with
  | OStr s =>
      match filter (fun m => str_eqb s (HttpRequestMethod_str m))
                   [GET; POST; PUT; DELETE; PATCH; HEAD; OPTIONS] with
      | m :: _ => ret m
      | [] => raise ValidationError
      end
  | _ => raise ValidationError
  end.

Definition validate_auth_type (o : pyobj) : result AuthType :=
  match o with
  | OStr s =>
      if str_eqb s (u "basic") then ret basic_auth
      else if str_eqb s (u "digest") then ret digest_auth
      else raise ValidationError
  | _ => raise ValidationError
  end.

Definition validate_path (o : pyobj) : result Path :=
  match o with
  | OPath p => ret p
  | OStr s => ret (Path_of s)
  | _ => raise ValidationError
  end.

Definition validate_content (o : pyobj) : result (str + list N) :=
  match o with
  | OStr s => ret (inl s)
  | OBytes b => ret (inr b)
  | _ => raise ValidationError
  end.

(** The value for field [k]: the validated argument when given, else the
    default; a field without default must be given. *)
Definition field {A} (validate : pyobj -> result A) (dflt : option A) (k : str)
    (kwargs : dict) : result A :=
  match lookup k kwargs with
  | Some v => validate v
  | None =>
      match dflt with
      | Some d => ret d
      | None => raise ValidationError
      end
  end.

Definition validate_BasicAuth (o : pyobj) : result BasicAuth.t :=
  d <- validate_dict o ;;
  username <- field validate_secret (Some []) (u "username") d ;;
  password <- field validate_secret (Some []) (u "password") d ;;
  ret (BasicAuth.mk username password).

Definition validate_DigestAuth (o : pyobj) : result DigestAuth.t :=
  d <- validate_dict o ;;
  username <- field validate_secret (Some []) (u "username") d ;;
  password <- field validate_secret (Some []) (u "password") d ;;
  ret (DigestAuth.mk username password).

Definition validate_Auth (o : pyobj) : result Auth.t :=
  d <- validate_dict o ;;
  type <- field (validate_optional validate_auth_type) (Some None) (u "type") d ;;
  basic <- field (validate_optional validate_BasicAuth) (Some None) (u "basic") d ;;
  digest <- field (validate_optional validate_DigestAuth) (Some None) (u "digest") d ;;
  ret (Auth.mk type basic digest).

Definition validate_Header (o : pyobj) : result Header.t :=
  d <- validate_dict o ;;
  name <- field validate_str None (u "name") d ;;
  value <- field validate_str None (u "value") d ;;
  enabled <- field validate_bool (Some true) (u "enabled") d ;;
  ret (Header.mk name value enabled).

Definition validate_QueryParam (o : pyobj) : result QueryParam.t :=
  d <- validate_dict o ;;
  name <- field validate_str None (u "name") d ;;
  value <- field validate_str None (u "value") d ;;
  enabled <- field validate_bool (Some true) (u "enabled") d ;;
  ret (QueryParam.mk name value enabled).

Definition validate_Cookie (o : pyobj) : result Cookie.t :=
  d <- validate_dict o ;;
  name <- field validate_str None (u "name") d ;;
  value <- field validate_str None (u "value") d ;;
  enabled <- field validate_bool (Some true) (u "enabled") d ;;
  ret (Cookie.mk name value enabled).

Definition validate_Options (o : pyobj) : result Options.t :=
  d <- validate_dict o ;;
  follow_redirects <- field validate_bool (Some true) (u "follow_redirects") d ;;
  verify_ssl <- field validate_bool (Some true) (u "verify_ssl") d ;;
  attach_cookies <- field validate_bool (Some true) (u "attach_cookies") d ;;
  proxy_url <- field validate_str (Some []) (u "proxy_url") d ;;
  timeout <- field validate_float (Some (float_of_Z 5)) (u "timeout") d ;;
  ret (Options.mk follow_redirects verify_ssl attach_cookies proxy_url timeout).

(** [RequestModel.__init__], given the keyword arguments. *)
Definition RequestModel_init (kwargs : dict) : result RequestModel.t :=
  name <- field validate_str (Some []) (u "name") kwargs ;;
  description <- field validate_str (Some []) (u "description") kwargs ;;
  method <- field validate_method (Some GET) (u "method") kwargs ;;
  url <- field validate_str (Some []) (u "url") kwargs ;;
  path <- field (validate_optional validate_path) (Some None) (u "path") kwargs ;;
  json_body <- field (validate_optional validate_dict) (Some None) (u "json_body") kwargs ;;
  form_data <- field (validate_optional validate_dict) (Some None) (u "form_data") kwargs ;;
  content <- field (validate_optional validate_content) (Some None) (u "content") kwargs ;;
  auth <- field (validate_optional validate_Auth) (Some None) (u "auth") kwargs ;;
  headers <- field (validate_list validate_Header) (Some []) (u "headers") kwargs ;;
  params <- field (validate_list validate_QueryParam) (Some []) (u "params") kwargs ;;
  cookies <- field (validate_list validate_Cookie) (Some []) (u "cookies") kwargs ;;
  posting_version <- field validate_str (Some VERSION) (u "posting_version") kwargs ;;
  options <- field validate_Options (Some Options_default) (u "options") kwargs ;;
  ret (RequestModel.mk name description method url path json_body form_data
         content auth headers params cookies posting_version options).

(** The body of [load_request_from_yaml] once the file is read.  The call
    [RequestModel(data..., path=...)] needs [data] to be a mapping and
    raises [TypeError] when [data] brings a [path] of its own. *)
Definition decode (file : Text) (file_path : str) : result RequestModel.t :=
  data <- yaml_safe_load file ;;
  match data with
  | ODict d =>
      match lookup (u "path") d with
      | Some _ => raise TypeError
      | None => RequestModel_init (d ++ [(u "path", OPath (Path_of file_path))])
      end
  | _ => raise TypeError
  end.

(** [load_request_from_yaml(file_path)] *)
Definition load_request_from_yaml (w : World) (file_path : str)
  : result RequestModel.t :=
  file <- open w file_path ;;
  decode file file_path.


(* ================================================================= *)
(** ** [Collection.from_directory] *)

(** [path_string[len(directory):].strip(os.path.sep).split(os.path.sep)] *)
Definition path_parts_of (directory path_string : str) : list str :=
  str_split SLASH (strip os_path_sep (skipn (List.length directory) path_string)).

(** One turn of the loop over [request_files]. *)
Definition from_directory_step (directory : str) (state : Collection * World)
    (file_path : Path) : Collection * World :=
  let (root_collection, w) := state in
  let path_string := Path_str file_path in
  match load_request_from_yaml w path_string with
  | inr request =>
      let path_parts := path_parts_of directory path_string in
      (add_request (removelast path_parts) (Collection_path root_collection)
         request root_collection, w)
  | inl e => (root_collection, print w (FailedToLoad file_path e))
  end.

(** The first lines of [from_directory]: the directory searched. *)
Definition directory_path_of (w : World) (directory : str) : Path :=
  match directory with [] => cwd w | _ => Path_of directory end.

(** [Collection.from_directory(directory)] *)
Definition from_directory (w : World) (directory : str) : Collection * World :=
  let directory_path := directory_path_of w directory in
  let directory :=
    match directory with [] => Path_str directory_path | _ => directory end in
  let request_files := rglob w directory_path (u "*.posting.yaml") in
  let collection_name := Path_name directory_path in
  let root_collection := mkCollection directory_path collection_name [] [] in
  fold_left (from_directory_step directory) request_files (root_collection, w).

(** All the requests of a tree. *)
Fixpoint all_requests (c : Collection) : list RequestModel.t :=
  match c with
  | mkCollection _ _ rs cs => rs ++ flat_map all_requests cs
  end.

(** Sibling names are unique at every node. *)
Fixpoint names_unique (c : Collection) : Prop :=
  match c with
  | mkCollection _ _ _ cs =>
      NoDup (map Collection_name cs)
      /\ (fix each (cs : list Collection) : Prop :=
            match cs with
            | [] => True
            | c' :: cs' => names_unique c' /\ each cs'
            end) cs
  end.

(* ================================================================= *)
(** ** Notions the statements use *)

Fixpoint total_length (ls : list str) : nat :=
  match ls with
  | [] => 0
  | l :: ls' => List.length l + total_length ls'
  end.

(** All the strings of a list differ. *)
Fixpoint distinct (l : list str) : bool :=
  match l with
  | [] => true
  | x :: l' => negb (existsb (str_eqb x) l') && distinct l'
  end.

(** Plain data, what [yaml.safe_load] can give back: [None], booleans,
    numbers, strings, bytes, and lists and dicts of plain data (a dict has
    each key once). *)
Fixpoint plain (o : pyobj) : bool :=
  match o with
  | ONone | OBool _ | OInt _ | OFloat _ | OStr _ | OBytes _ => true
  | OList items => forallb plain items
  | ODict items =>
      distinct (keys items) && forallb (fun kv => plain (snd kv)) items
  | OPath _ | OSecretStr _ | OModel _ _ => false
  end.

(** What plain data becomes when it is represented and constructed again:
    every string is replaced by its presented form, and a dict is rebuilt
    key by key. *)
Fixpoint normalize (o : pyobj) : pyobj :=
  match o with
  | OStr s => OStr (presented s)
  | OList items => OList (map normalize items)
  | ODict items =>
      ODict (fold_left
               (fun m kv => dict_set (presented (fst kv)) (normalize (snd kv)) m)
               items [])
  | _ => o
  end.

Definition normalize_items (items : dict) : dict :=
  fold_left (fun m kv => dict_set (presented (fst kv)) (normalize (snd kv)) m)
    items [].

(** The fields of a request that reach its document. *)
Definition persisted_fields : list str :=
  [ u "name"; u "description"; u "method"; u "url"; u "json_body";
    u "form_data"; u "content"; u "headers"; u "params"; u "posting_version";
    u "options" ].

(** A string [str_presenter] leaves as it is. *)
Definition unchanged (s : str) : bool := str_eqb (presented s) s.

(** Data all of whose strings, keys included, are left as they are. *)
Fixpoint stable (o : pyobj) : bool :=
  match o with
  | OStr s => unchanged s
  | OList items => forallb stable items
  | ODict items =>
      forallb (fun kv => unchanged (fst kv) && stable (snd kv)) items
  | _ => true
  end.

(** A request as it comes back from its document. *)

Definition presented_Header (h : Header.t) : Header.t :=
  Header.mk (presented (Header.name h)) (presented (Header.value h))
    (Header.enabled h).

Definition presented_QueryParam (q : QueryParam.t) : QueryParam.t :=
  QueryParam.mk (presented (QueryParam.name q)) (presented (QueryParam.value q))
    (QueryParam.enabled q).

Definition presented_content (c : str + list N) : str + list N :=
  match c with inl s => inl (presented s) | inr b => inr b end.

Definition presented_Options (o : Options.t) : Options.t :=
  Options.mk (Options.follow_redirects o) (Options.verify_ssl o)
    (Options.attach_cookies o) (presented (Options.proxy_url o))
    (Options.timeout o).

Definition reloaded (self : RequestModel.t) (file_path : str) : RequestModel.t :=
  RequestModel.mk
    (presented (RequestModel.name self))
    (presented (RequestModel.description self))
    (RequestModel.method self)
    (presented (RequestModel.url self))
    (Some (Path_of file_path))
    (option_map normalize_items (RequestModel.json_body self))
    (option_map normalize_items (RequestModel.form_data self))
    (option_map presented_content (RequestModel.content self))
    None
    (map presented_Header (RequestModel.headers self))
    (map presented_QueryParam (RequestModel.params self))
    []
    (if str_eqb (RequestModel.posting_version self) VERSION then VERSION
     else presented (RequestModel.posting_version self))
    (presented_Options (RequestModel.options self)).

(** The JSON body and the form data of a request are plain data. *)
Definition plain_bodies (self : RequestModel.t) : bool :=
  plain (opt_obj ODict (RequestModel.json_body self))
  && plain (opt_obj ODict (RequestModel.form_data self)).

(** Every string the document of a request holds is left as it is by
    [str_presenter]. *)
Definition stable_request (self : RequestModel.t) : bool :=
  unchanged (RequestModel.name self)
  && unchanged (RequestModel.description self)
  && unchanged (RequestModel.url self)
  && stable (opt_obj ODict (RequestModel.json_body self))
  && stable (opt_obj ODict (RequestModel.form_data self))
  && stable (opt_obj content_obj (RequestModel.content self))
  && forallb (fun h => unchanged (Header.name h) && unchanged (Header.value h))
       (RequestModel.headers self)
  && forallb (fun q => unchanged (QueryParam.name q) && unchanged (QueryParam.value q))
       (RequestModel.params self)
  && unchanged (RequestModel.posting_version self)
  && unchanged (Options.proxy_url (RequestModel.options self)).

(** The same request, but for the fields that never reach a document. *)
Definition with_path (self : RequestModel.t) (file_path : str) : RequestModel.t :=
  RequestModel.mk
    (RequestModel.name self) (RequestModel.description self)
    (RequestModel.method self) (RequestModel.url self)
    (Some (Path_of file_path))
    (RequestModel.json_body self) (RequestModel.form_data self)
    (RequestModel.content self)
    None
    (RequestModel.headers self) (RequestModel.params self)
    []
    (RequestModel.posting_version self) (RequestModel.options self).

(** The keyword arguments [RequestModel] gets when the document of [self]
    is read back from [file_path]. *)
Definition reloaded_kwargs (self : RequestModel.t) (file_path : str) : dict :=
  map (fun kv => (fst kv, normalize (snd kv)))
    (flat_map (dump_attr to_python (model_fields cRequestModel))
       (RequestModel_dict self))
  ++ [(u "path", OPath (Path_of file_path))].

(** The requests of the discovered files that load, and the lines printed
    for those that do not, in the order of discovery. *)
Definition loaded (w : World) (request_files : list Path) : list RequestModel.t :=
  flat_map (fun file_path =>
              match load_request_from_yaml w (Path_str file_path) with
              | inr request => [request]
              | inl _ => []
              end) request_files.

Definition failures (w : World) (request_files : list Path) : list Line :=
  flat_map (fun file_path =>
              match load_request_from_yaml w (Path_str file_path) with
              | inr _ => []
              | inl e => [FailedToLoad file_path e]
              end) request_files.

(** A name fit for one component of a path: not empty, not ["."], no
    separator in it. *)
Definition clean (x : str) : bool :=
  is_part x && negb (existsb (char_eqb SLASH) x).

(** Equality of two requests on all fields but [cookies] and [path]. *)
Definition same_but_cookies_and_path (a b : RequestModel.t) : Prop :=
  RequestModel.name a = RequestModel.name b
  /\ RequestModel.description a = RequestModel.description b
  /\ RequestModel.method a = RequestModel.method b
  /\ RequestModel.url a = RequestModel.url b
  /\ RequestModel.json_body a = RequestModel.json_body b
  /\ RequestModel.form_data a = RequestModel.form_data b
  /\ RequestModel.content a = RequestModel.content b
  /\ RequestModel.auth a = RequestModel.auth b
  /\ RequestModel.headers a = RequestModel.headers b
  /\ RequestModel.params a = RequestModel.params b
  /\ RequestModel.posting_version a = RequestModel.posting_version b
  /\ RequestModel.options a = RequestModel.options b.

(** Equality of two requests on the fields that reach a document. *)
Definition same_persisted (a b : RequestModel.t) : Prop :=
  RequestModel.name a = RequestModel.name b
  /\ RequestModel.description a = RequestModel.description b
  /\ RequestModel.method a = RequestModel.method b
  /\ RequestModel.url a = RequestModel.url b
  /\ RequestModel.json_body a = RequestModel.json_body b
  /\ RequestModel.form_data a = RequestModel.form_data b
  /\ RequestModel.content a = RequestModel.content b
  /\ RequestModel.headers a = RequestModel.headers b
  /\ RequestModel.params a = RequestModel.params b
  /\ RequestModel.posting_version a = RequestModel.posting_version b
  /\ RequestModel.options a = RequestModel.options b.

(** The node a chain of directory names leads to, going each time into the
    first child of that name. *)
Fixpoint node_at (path_parts : list str) (c : Collection) : option Collection :=
  match path_parts with
  | [] => Some c
  | part :: rest =>
      match find (fun child => str_eqb (Collection_name child) part)
                 (Collection_children c) with
      | Some child => node_at rest child
      | None => None
      end
  end.

Definition requests_at (path_parts : list str) (c : Collection)
  : list RequestModel.t :=
  match node_at path_parts c with
  | Some n => Collection_requests n
  | None => []
  end.

(* ================================================================= *)
(** ** Sample data *)

(** A request whose strings are all in the form the document keeps. *)
Definition sample_request : RequestModel.t :=
  RequestModel.mk (u "login")
    (u "first line" ++ [LF] ++ u "second line")
    POST (u "https://example.org/login") None
    (Some [(u "user", OStr (u "ada")); (u "tries", OInt 3)]) None
    (Some (inl (u "raw"))) None
    [Header.mk (u "Accept") (u "*/*") true; Header.mk (u "X-Debug") (u "1") false]
    [QueryParam.mk (u "q") (u "x") true] []
    VERSION (Options.mk true false true [] (float_of_Z 5)).

(** The default request, but for a description of two lines of which the
    first ends in a space. *)
Definition trailing_space_request : RequestModel.t :=
  RequestModel.mk [] (u "a " ++ [LF] ++ u "b") GET [] None None None None None
    [] [] [] VERSION Options_default.

(** Directory [a] under [/home], holding [a/b/x], [a/c/y] and [a/z]. *)
Definition sample_world (y : Text) : World :=
  mkWorld (Path_of (u "/home"))
    [ (Path_of (u "/home/a/b/x.posting.yaml"), encode sample_request);
      (Path_of (u "/home/a/c/y.posting.yaml"), y);
      (Path_of (u "/home/a/z.posting.yaml"), encode RequestModel_default) ]
    [].

(* ================================================================= *)
(** ** More of the module, and notions for what follows *)

(** [d.get(k)] on a dumped value. *)
Definition getattr_item (o : pyobj) (k : str) : option pyobj :=
  match o with
  | ODict d => lookup k d
  | _ => None
  end.

(** The first lines of [from_directory]: the string the parts of a file
    are cut from. *)
Definition directory_string_of (w : World) (directory : str) : str :=
  match directory with
  | [] => Path_str (directory_path_of w directory)
  | _ => directory
  end.

(** The chain of directory names [from_directory] walks for a file:
    [path_parts[:-1]]. *)
Definition chain_of (directory : str) (file_path : Path) : list str :=
  removelast (path_parts_of directory (Path_str file_path)).

Fixpoint strs_eqb (a b : list str) : bool :=
  match a, b with
  | [], [] => true
  | x :: a', y :: b' => str_eqb x y && strs_eqb a' b'
  | _, _ => false
  end.

(** The requests of the discovered files that load and whose chain is
    [chain], in the order of discovery. *)
Definition placed (w : World) (directory : str) (chain : list str)
    (request_files : list Path) : list RequestModel.t :=
  flat_map (fun file_path =>
              match load_request_from_yaml w (Path_str file_path) with
              | inr request =>
                  if strs_eqb chain (chain_of directory file_path)
                  then [request] else []
              | inl _ => []
              end) request_files.

(** The path of every child is the path of its parent extended by the
    name of the child. *)
Fixpoint paths_consistent (c : Collection) : Prop :=
  match c with
  | mkCollection p _ _ cs =>
      (fix each (cs : list Collection) : Prop :=
         match cs with
         | [] => True
         | c' :: cs' =>
             Collection_path c' = Path_div p (Collection_name c')
             /\ paths_consistent c' /\ each cs'
         end) cs
  end.

(** A node and all the nodes below it hold or lead to a request. *)
Fixpoint populated (c : Collection) : Prop :=
  match c with
  | mkCollection _ _ _ cs =>
      all_requests c <> []
      /\ (fix each (cs : list Collection) : Prop :=
            match cs with
            | [] => True
            | c' :: cs' => populated c' /\ each cs'
            end) cs
  end.

(* ================================================================= *)
(** ** PyYAML: the style a scalar is written in

    [Emitter.analyze_scalar] and [Emitter.choose_scalar_style], which decide
    how the emitter writes a scalar node.  [yaml.dump] is called without
    [allow_unicode], [canonical] or a flow style, so collections are written
    in block form and a scalar is never inside a flow collection. *)

Inductive ScalarStyle := Plain | SingleQuoted | DoubleQuoted | Literal | Folded.

Record ScalarAnalysis := mkAnalysis {
  empty : bool;
  multiline : bool;
  allow_flow_plain : bool;
  allow_block_plain : bool;
  allow_single_quoted : bool;
  allow_double_quoted : bool;
  allow_block : bool }.

Definition SPACE : char := 32%N.

(** [ch in '\n\x85  '] *)
Definition is_break (ch : char) : bool :=
  N.eqb ch 10 || N.eqb ch 133 || N.eqb ch 8232 || N.eqb ch 8233.

(** [ch in '\0 \t\r\n\x85  '] *)
Definition is_blank_or_break (ch : char) : bool :=
  N.eqb ch 0 || N.eqb ch 32 || N.eqb ch 9 || N.eqb ch 13 || is_break ch.

(** [ch == '\n' or '\x20' <= ch <= '\x7E'] *)
Definition printable (ch : char) : bool :=
  N.eqb ch 10 || (N.leb 32 ch && N.leb ch 126).

(** The characters written as they are when [allow_unicode] is set. *)
Definition unicode_character (ch : char) : bool :=
  (N.eqb ch 133 || (N.leb 160 ch && N.leb ch 55295)
   || (N.leb 57344 ch && N.leb ch 65533)
   || (N.leb 65536 ch && N.ltb ch 1114111))
  && negb (N.eqb ch 65279).

Definition special_character (allow_unicode : bool) (ch : char) : bool :=
  negb (printable ch) && (negb (unicode_character ch) || negb allow_unicode).

(** What the loop of [analyze_scalar] keeps from one character to the
    next. *)
Record Scan := mkScan {
  block_indicators : bool;
  flow_indicators : bool;
  line_breaks : bool;
  special_characters : bool;
  leading_space : bool;
  leading_break : bool;
  trailing_space : bool;
  trailing_break : bool;
  break_space : bool;
  space_break : bool;
  preceded_by_whitespace : bool;
  previous_space : bool;
  previous_break : bool }.

(** One turn of the loop, for the character [ch]: [first] and [last] tell
    whether it is the first and the last one, [followed_by_whitespace]
    whether it is the last one or a blank or break follows. *)
Definition scan_step (allow_unicode first last followed_by_whitespace : bool)
    (st : Scan) (ch : char) : Scan :=
  let space := char_eqb ch SPACE in
  let break := negb space && is_break ch in
  mkScan
    (block_indicators st
     || (if first then
           in_chars (u "#,[]{}&*!|>'%@`") ch || char_eqb ch 34%N
           || (in_chars (u "?:") ch && followed_by_whitespace)
           || (char_eqb ch 45%N && followed_by_whitespace)
         else
           (char_eqb ch 58%N && followed_by_whitespace)
           || (char_eqb ch 35%N && preceded_by_whitespace st)))
    (flow_indicators st
     || (if first then
           in_chars (u "#,[]{}&*!|>'%@`") ch || char_eqb ch 34%N
           || in_chars (u "?:") ch
           || (char_eqb ch 45%N && followed_by_whitespace)
         else
           in_chars (u ",?[]{}") ch || char_eqb ch 58%N
           || (char_eqb ch 35%N && preceded_by_whitespace st)))
    (line_breaks st || is_break ch)
    (special_characters st || special_character allow_unicode ch)
    (leading_space st || (space && first))
    (leading_break st || (break && first))
    (trailing_space st || (space && last))
    (trailing_break st || (break && last))
    (break_space st || (space && previous_break st))
    (space_break st || (break && previous_space st))
    (is_blank_or_break ch)
    space
    break.

Fixpoint scan (allow_unicode first : bool) (st : Scan) (scalar : str) : Scan :=
  match scalar with
  | [] => st
  | ch :: rest =>
      let last := match rest with [] => true | _ :: _ => false end in
      let followed_by_whitespace :=
        match rest with [] => true | next :: _ => is_blank_or_break next end in
      scan allow_unicode false
        (scan_step allow_unicode first last followed_by_whitespace st ch) rest
  end.

(** [analyze_scalar(scalar)] *)
Definition analyze_scalar (allow_unicode : bool) (scalar : str) : ScalarAnalysis :=
  match scalar with
  | [] => mkAnalysis true false false true true true false
  | _ :: _ =>
      let document_indicator :=
        startswith (u "---") scalar || startswith (u "...") scalar in
      let st :=
        scan allow_unicode true
          (mkScan document_indicator document_indicator false false false false
             false false false false true false false) scalar in
      let edge :=
        leading_space st || leading_break st || trailing_space st
        || trailing_break st in
      let double_only := space_break st || special_characters st in
      mkAnalysis false (line_breaks st)
        (negb edge && negb (break_space st) && negb double_only
         && negb (line_breaks st) && negb (flow_indicators st))
        (negb edge && negb (break_space st) && negb double_only
         && negb (line_breaks st) && negb (block_indicators st))
        (negb (break_space st) && negb double_only)
        true
        (negb (trailing_space st) && negb double_only)
  end.

(** [choose_scalar_style()], for a scalar of the given requested [style]
    whose plain form resolves to its tag when [implicit] is set. *)
Definition choose_scalar_style (flow_level : nat) (simple_key_context : bool)
    (implicit : bool) (style : option char) (analysis : ScalarAnalysis)
  : ScalarStyle :=
  let no_style := match style with None => true | Some _ => false end in
  let is_style (c : char) :=
    match style with Some c' => char_eqb c c' | None => false end in
  if is_style 34%N then DoubleQuoted
  else if no_style && implicit
          && negb (simple_key_context && (empty analysis || multiline analysis))
          && (match flow_level with
              | O => allow_block_plain analysis
              | S _ => allow_flow_plain analysis
              end)
  then Plain
  else if (is_style PIPE || is_style 62%N)
          && (match flow_level with O => true | S _ => false end)
          && negb simple_key_context && allow_block analysis
  then (if is_style PIPE then Literal else Folded)
  else if (no_style || is_style 39%N)
          && allow_single_quoted analysis
          && negb (simple_key_context && multiline analysis)
  then SingleQuoted
  else DoubleQuoted.

(** The style a string node is written in as the value of a block mapping
    or the item of a block sequence. *)
Definition value_style (implicit : bool) (n : Node) : option ScalarStyle :=
  match n with
  | ScalarNode (SStr s) style =>
      Some (choose_scalar_style 0 false implicit style (analyze_scalar false s))
  | _ => None
  end.

(** The strings a value holds in value position, and the nodes that stand
    for them in a document. *)
Fixpoint value_strings (o : pyobj) : list str :=
  match o with
  | OStr s => [s]
  | OList items => flat_map value_strings items
  | ODict items => flat_map (fun kv => value_strings (snd kv)) items
  | _ => []
  end.

Fixpoint string_nodes (n : Node) : list Node :=
  match n with
  | ScalarNode (SStr _) _ => [n]
  | ScalarNode _ _ => []
  | SequenceNode items => flat_map string_nodes items
  | MappingNode pairs => flat_map (fun kv => string_nodes (snd kv)) pairs
  | ObjectNode => []
  end.

Definition document_string_nodes (t : Text) : list Node :=
  match t with
  | Document n => string_nodes n
  | Unparsable => []
  end.

(** A block scalar can hold the text: it is not empty and made of [\n] and
    printable ASCII characters only. *)
Definition block_text (s : str) : bool :=
  match s with [] => false | _ :: _ => forallb printable s end.

Fixpoint ends_with_space (s : str) : bool :=
  match s with
  | [] => false
  | [c] => char_eqb c SPACE
  | _ :: rest => ends_with_space rest
  end.

Definition starts_with_break (s : str) : bool :=
  match s with [] => false | c :: _ => negb (char_eqb c SPACE) && is_break c end.

Fixpoint space_before_break (s : str) : bool :=
  match s with
  | [] => false
  | c :: rest =>
      (char_eqb c SPACE && starts_with_break rest) || space_before_break rest
  end.

(** The default request, but for a description with a tab in its second
    line. *)
Definition tab_request : RequestModel.t :=
  RequestModel.mk [] (u "a" ++ [LF; 9%N] ++ u "b") GET [] None None None None
    None [] [] [] VERSION Options_default.

(* ================================================================= *)
(** * Properties *)

(* ----------------------------------------------------------------- *)
(** ** Strings *)

Example splitlines_ex1 :
  splitlines (u "a  " ++ [LF] ++ u "b" ++ [CR; LF] ++ [LF] ++ u "c" ++ [LF])
  = [u "a  "; u "b"; []; u "c"].
Proof. reflexivity. Qed.

Example splitlines_ex2 : splitlines [LF] = [[]] /\ splitlines [] = [].
Proof. split; reflexivity. Qed.

Example rstrip_ex1 : rstrip (u " a b  ") = u " a b".
Proof. reflexivity. Qed.

Example presented_ex1 :
  presented (u "a " ++ [LF] ++ u "b" ++ [LF]) = u "a" ++ [LF] ++ u "b".
Proof. reflexivity. Qed.

Lemma char_eqb_eq (a b : char) : char_eqb a b = true <-> a = b.
Proof. apply N.eqb_eq. Qed.

Lemma char_eqb_refl (a : char) : char_eqb a a = true.
Proof. apply N.eqb_refl. Qed.

Lemma str_eqb_eq (a b : str) : str_eqb a b = true <-> a = b.
Proof.
  revert b; induction a as [|x a IH]; intros [|y b]; simpl; split;
    try congruence; try reflexivity.
  - intros H. apply andb_true_iff in H as [Hx Hy].
    apply char_eqb_eq in Hx. apply IH in Hy. congruence.
  - intros H. injection H as -> ->.
    rewrite char_eqb_refl. simpl. now apply IH.
Qed.

Lemma str_eqb_refl (a : str) : str_eqb a a = true.
Proof. now apply str_eqb_eq. Qed.

Lemma str_eqb_neq (a b : str) : str_eqb a b = false <-> a <> b.
Proof.
  split.
  - intros H E. apply str_eqb_eq in E. congruence.
  - intros H. destruct (str_eqb a b) eqn:E; [|reflexivity].
    apply str_eqb_eq in E. contradiction.
Qed.

Lemma count_pos_In (c : char) (data : str) :
  Nat.ltb 0 (count c data) = true <-> In c data.
Proof.
  unfold count. induction data as [|x data IH]; simpl.
  - split; [discriminate | contradiction].
  - destruct (char_eqb c x) eqn:E; simpl.
    + apply char_eqb_eq in E. subst. split; auto.
    + rewrite IH. split; [auto|].
      intros [H|H]; [|exact H].
      subst. rewrite char_eqb_refl in E. discriminate.
Qed.

Lemma count_zero_not_In (c : char) (data : str) :
  Nat.ltb 0 (count c data) = false <-> ~ In c data.
Proof.
  rewrite <- count_pos_In. destruct (Nat.ltb 0 (count c data)); split;
    congruence.
Qed.

Lemma str_presenter_multiline (data : str) :
  In LF data ->
  str_presenter data
  = ScalarNode (SStr (join [LF] (map rstrip (splitlines data)))) (Some PIPE).
Proof.
  intros H. apply count_pos_In in H. unfold str_presenter. now rewrite H.
Qed.

Lemma str_presenter_single_line (data : str) :
  ~ In LF data -> str_presenter data = ScalarNode (SStr data) None.
Proof.
  intros H. apply count_zero_not_In in H. unfold str_presenter. now rewrite H.
Qed.

Lemma presented_multiline (data : str) :
  In LF data -> presented data = join [LF] (map rstrip (splitlines data)).
Proof.
  intros H. unfold presented. now rewrite str_presenter_multiline.
Qed.

Lemma presented_single_line (data : str) :
  ~ In LF data -> presented data = data.
Proof.
  intros H. unfold presented. now rewrite str_presenter_single_line.
Qed.

Lemma str_presenter_presented (data : str) :
  node_str (str_presenter data) = Some (presented data).
Proof.
  unfold presented, str_presenter.
  destruct (Nat.ltb 0 (count LF data)); reflexivity.
Qed.

(** Lengths: joining the stripped lines of a text never gives more
    characters than the text has, and gives fewer as soon as one line
    loses something. *)

Lemma rstrip_prefix (l : str) : exists t, l = rstrip l ++ t.
Proof.
  induction l as [|c rest [t IH]]; simpl.
  - now exists [].
  - destruct (rstrip rest) as [|x r] eqn:E.
    + destruct (is_space c).
      * now exists (c :: rest).
      * exists rest. reflexivity.
    + exists t. simpl in *. now rewrite <- IH.
Qed.

Lemma rstrip_length_le (l : str) : List.length (rstrip l) <= List.length l.
Proof.
  destruct (rstrip_prefix l) as [t E]. rewrite E at 2.
  rewrite length_app. lia.
Qed.


Lemma join_length (sep : str) (ls : list str) :
  List.length (join sep ls)
  = total_length ls + List.length sep * (List.length ls - 1).
Proof.
  induction ls as [|l ls IH]; [simpl; lia|].
  destruct ls as [|l' ls].
  - simpl. lia.
  - change (join sep (l :: l' :: ls)) with (l ++ sep ++ join sep (l' :: ls)).
    rewrite !length_app, IH. simpl. lia.
Qed.

Lemma total_length_rstrip_le (ls : list str) :
  total_length (map rstrip ls) <= total_length ls.
Proof.
  induction ls as [|l ls IH]; simpl; [lia|].
  pose proof (rstrip_length_le l). lia.
Qed.


Lemma join_cons_length (line : str) (X : list str) :
  List.length (join [LF] (line :: X))
  <= List.length line + 1 + List.length (join [LF] X).
Proof.
  destruct X as [|x X]; [simpl; lia|].
  change (join [LF] (line :: x :: X)) with (line ++ [LF] ++ join [LF] (x :: X)).
  rewrite !length_app. simpl. lia.
Qed.

Lemma splitlines_from_length_bounded (n : nat) :
  forall s line, List.length s <= n ->
  List.length (join [LF] (splitlines_from line s))
  <= List.length line + List.length s.
Proof.
  induction n as [|n IH]; intros s line Hn.
  - destruct s; [|simpl in Hn; lia]. destruct line; simpl; lia.
  - destruct s as [|c rest]; [destruct line; simpl; lia|].
    simpl in Hn. simpl splitlines_from.
    assert (Hrest : forall l, List.length (join [LF] (splitlines_from l rest))
                              <= List.length l + List.length rest)
      by (intros l; apply IH; lia).
    destruct (is_linebreak c).
    + destruct (char_eqb c CR); [destruct rest as [|d rest']|].
      * etransitivity; [apply join_cons_length|]. simpl. lia.
      * destruct (char_eqb d LF).
        -- etransitivity; [apply join_cons_length|].
           assert (List.length (join [LF] (splitlines_from [] rest'))
                   <= List.length (@nil char) + List.length rest')
             by (apply IH; simpl in Hn; lia).
           simpl in *. lia.
        -- etransitivity; [apply join_cons_length|].
           specialize (Hrest []). simpl in *. lia.
      * etransitivity; [apply join_cons_length|].
        specialize (Hrest []). simpl in *. lia.
    + etransitivity; [apply Hrest|]. rewrite length_app. simpl. lia.
Qed.

Lemma splitlines_from_length (s line : str) :
  List.length (join [LF] (splitlines_from line s))
  <= List.length line + List.length s.
Proof. eapply splitlines_from_length_bounded. apply le_n. Qed.

Lemma splitlines_length (s : str) :
  List.length (join [LF] (splitlines s)) <= List.length s.
Proof. apply (splitlines_from_length s []). Qed.


(* ----------------------------------------------------------------- *)
(** ** Dictionaries *)

Lemma lookup_None_keys {A} (k : str) (d : list (str * A)) :
  lookup k d = None <-> ~ In k (keys d).
Proof.
  induction d as [|[k' v] d IH]; simpl.
  - split; auto.
  - destruct (str_eqb k k') eqn:E.
    + apply str_eqb_eq in E. subst. split; [discriminate|]. intros H. tauto.
    + apply str_eqb_neq in E. rewrite IH. split; [|tauto].
      intros H [H'|H']; [congruence|contradiction].
Qed.

Lemma lookup_app {A} (k : str) (d d' : list (str * A)) :
  lookup k (d ++ d') = match lookup k d with Some v => Some v | None => lookup k d' end.
Proof.
  induction d as [|[k' v] d IH]; simpl; [reflexivity|].
  destruct (str_eqb k k'); [reflexivity|exact IH].
Qed.

Lemma lookup_map {A B} (f : A -> B) (k : str) (d : list (str * A)) :
  lookup k (map (fun kv => (fst kv, f (snd kv))) d) = option_map f (lookup k d).
Proof.
  induction d as [|[k' v] d IH]; simpl; [reflexivity|].
  destruct (str_eqb k k'); [reflexivity|exact IH].
Qed.

Lemma dict_set_new {A} (k : str) (v : A) (d : list (str * A)) :
  ~ In k (keys d) -> dict_set k v d = d ++ [(k, v)].
Proof.
  induction d as [|[k' v'] d IH]; simpl; intros H; [reflexivity|].
  destruct (str_eqb k k') eqn:E.
  - apply str_eqb_eq in E. subst. tauto.
  - rewrite IH by tauto. reflexivity.
Qed.

(* ----------------------------------------------------------------- *)
(** ** What [model_dump] keeps *)

Section Dump.
Variable f : pyobj -> pyobj.
Variable fields : list (str * FieldInfo).

Lemma dump_attr_cases (kv : str * pyobj) :
  dump_attr f fields kv = []
  \/ dump_attr f fields kv = [(fst kv, f (snd kv))]
     /\ exists info, lookup (fst kv) fields = Some info
                     /\ exclude info = false
                     /\ is_none (snd kv) = false
                     /\ is_default info (snd kv) = false.
Proof.
  unfold dump_attr. destruct (lookup (fst kv) fields) as [info|]; [|now left].
  destruct (exclude info) eqn:E1; [now left|].
  destruct (is_none (snd kv)) eqn:E2; [now left|].
  destruct (is_default info (snd kv)) eqn:E3; [now left|].
  right. split; [reflexivity|]. now exists info.
Qed.

Lemma dump_keys (attrs : dict) (k : str) :
  In k (keys (flat_map (dump_attr f fields) attrs)) ->
  exists v info,
    In (k, v) attrs /\ lookup k fields = Some info /\ exclude info = false
    /\ is_none v = false /\ is_default info v = false.
Proof.
  induction attrs as [|[k0 v0] attrs IH]; simpl; [contradiction|].
  unfold keys. rewrite map_app, in_app_iff. intros [H|H].
  - destruct (dump_attr_cases (k0, v0)) as [E|[E [info Hinfo]]];
      rewrite E in H; simpl in H; [contradiction|].
    destruct H as [<-|[]]. exists v0, info. simpl in Hinfo. tauto.
  - destruct (IH H) as [v [info Hv]]. exists v, info. tauto.
Qed.

Lemma dump_values (attrs : dict) (kv : str * pyobj) :
  In kv (flat_map (dump_attr f fields) attrs) ->
  exists v info,
    In (fst kv, v) attrs /\ snd kv = f v
    /\ lookup (fst kv) fields = Some info /\ exclude info = false.
Proof.
  induction attrs as [|[k0 v0] attrs IH]; simpl; [contradiction|].
  rewrite in_app_iff. intros [H|H].
  - destruct (dump_attr_cases (k0, v0)) as [E|[E [info Hinfo]]];
      rewrite E in H; simpl in H; [contradiction|].
    destruct H as [<-|[]]. exists v0, info. simpl in *. tauto.
  - destruct (IH H) as [v [info Hv]]. exists v, info. tauto.
Qed.

Lemma dump_keys_attrs (attrs : dict) (k : str) :
  In k (keys (flat_map (dump_attr f fields) attrs)) -> In k (keys attrs).
Proof.
  intros H. destruct (dump_keys _ _ H) as [v [info [Hin _]]].
  apply (in_map fst) in Hin. exact Hin.
Qed.

Lemma dump_keys_NoDup (attrs : dict) :
  NoDup (keys attrs) -> NoDup (keys (flat_map (dump_attr f fields) attrs)).
Proof.
  induction attrs as [|[k0 v0] attrs IH]; simpl; intros H; [constructor|].
  inversion H as [|? ? Hk0 Hnd]; subst.
  destruct (dump_attr_cases (k0, v0)) as [E|[E _]]; rewrite E; simpl.
  - now apply IH.
  - constructor; [|now apply IH].
    intros Hin. apply Hk0. now apply dump_keys_attrs in Hin.
Qed.

Lemma lookup_dump (attrs : dict) (k : str) :
  NoDup (keys attrs) ->
  lookup k (flat_map (dump_attr f fields) attrs)
  = match lookup k attrs, lookup k fields with
    | Some v, Some info =>
        if exclude info then None
        else if is_none v then None
        else if is_default info v then None
        else Some (f v)
    | _, _ => None
    end.
Proof.
  induction attrs as [|[k0 v0] attrs IH]; simpl; intros H; [reflexivity|].
  inversion H as [|? ? Hk0 Hnd]; subst.
  rewrite lookup_app. destruct (str_eqb k k0) eqn:E.
  - apply str_eqb_eq in E. subst k0.
    assert (Hrest : lookup k (flat_map (dump_attr f fields) attrs) = None).
    { apply lookup_None_keys. intros Hin. apply Hk0.
      now apply dump_keys_attrs in Hin. }
    rewrite Hrest. unfold dump_attr. simpl.
    destruct (lookup k fields) as [info|]; [|reflexivity].
    destruct (exclude info); [reflexivity|].
    destruct (is_none v0); [reflexivity|].
    destruct (is_default info v0); [reflexivity|].
    simpl. now rewrite str_eqb_refl.
  - rewrite (IH Hnd).
    destruct (dump_attr_cases (k0, v0)) as [E'|[E' _]]; rewrite E'; simpl;
      [reflexivity|].
    now rewrite E.
Qed.
End Dump.

Lemma distinct_NoDup (l : list str) : distinct l = true -> NoDup l.
Proof.
  induction l as [|x l IH]; simpl; intros H; constructor.
  - apply andb_true_iff in H as [H _]. intros Hin.
    apply negb_true_iff in H.
    assert (existsb (str_eqb x) l = true)
      by (apply existsb_exists; exists x; split; [exact Hin|apply str_eqb_refl]).
    congruence.
  - apply andb_true_iff in H as [_ H]. now apply IH.
Qed.

Lemma RequestModel_dict_NoDup (self : RequestModel.t) :
  NoDup (keys (RequestModel_dict self)).
Proof. apply distinct_NoDup. reflexivity. Qed.

Lemma model_dump_unfold (self : RequestModel.t) :
  model_dump self
  = ODict (flat_map (dump_attr to_python (model_fields cRequestModel))
             (RequestModel_dict self)).
Proof. reflexivity. Qed.

Lemma document_keys_dump (d : dict) :
  document_keys (yaml_dump (ODict d)) = map presented (keys d).
Proof.
  unfold yaml_dump. simpl. induction d as [|[k v] d IH]; simpl; [reflexivity|].
  rewrite str_presenter_presented. simpl. now rewrite IH.
Qed.

(** The field table of [RequestModel], as the class body leaves it. *)
Lemma RequestModel_fields :
  model_fields cRequestModel
  = [ (u "name", Field (OStr []));
      (u "description", Field (OStr []));
      (u "method", Field (OStr (u "GET")));
      (u "url", Field (OStr []));
      (u "path", Field_exclude ONone);
      (u "json_body", Field ONone);
      (u "form_data", Field ONone);
      (u "content", Field ONone);
      (u "auth", Field_exclude ONone);
      (u "headers", Field (OList []));
      (u "params", Field (OList []));
      (u "cookies", Field_exclude (OList []));
      (u "posting_version", Field (OStr VERSION));
      (u "options", Field (Options_obj Options_default)) ].
Proof. reflexivity. Qed.

Lemma encode_keys_persisted (self : RequestModel.t) (k : str) :
  In k (document_keys (encode self)) -> In k persisted_fields.
Proof.
  unfold encode. rewrite model_dump_unfold, document_keys_dump.
  intros H. apply in_map_iff in H as [k0 [<- H]].
  apply dump_keys in H as [v [info [Hin [Hf [Hex _]]]]].
  rewrite RequestModel_fields in Hf.
  simpl in Hin.
  repeat (destruct Hin as [Hin|Hin];
          [injection Hin as <- <-; vm_compute in Hf; injection Hf as <-;
           first [discriminate Hex | vm_compute; tauto] |]).
  contradiction.
Qed.

Lemma In_lookup {A} (k : str) (v : A) (d : list (str * A)) :
  NoDup (keys d) -> In (k, v) d -> lookup k d = Some v.
Proof.
  induction d as [|[k' v'] d IH]; simpl; intros Hnd Hin; [contradiction|].
  inversion Hnd as [|? ? Hk' Hnd']; subst.
  destruct Hin as [Hin|Hin].
  - injection Hin as -> ->. now rewrite str_eqb_refl.
  - destruct (str_eqb k k') eqn:E.
    + apply str_eqb_eq in E. subst. exfalso. apply Hk'.
      now apply (in_map fst) in Hin.
    + now apply IH.
Qed.

Lemma RequestModel_dict_keys_presented (self : RequestModel.t) (k : str) :
  In k (keys (RequestModel_dict self)) -> presented k = k.
Proof.
  simpl. intros H.
  repeat (destruct H as [<-|H]; [reflexivity|]). contradiction.
Qed.

Lemma encode_key_dumped (self : RequestModel.t) (k : str) :
  In k (document_keys (encode self)) ->
  exists v info,
    lookup k (RequestModel_dict self) = Some v
    /\ lookup k (model_fields cRequestModel) = Some info
    /\ exclude info = false /\ is_none v = false /\ is_default info v = false.
Proof.
  unfold encode. rewrite model_dump_unfold, document_keys_dump.
  intros H. apply in_map_iff in H as [k0 [E H]].
  pose proof H as Hk0. apply dump_keys_attrs in Hk0.
  apply RequestModel_dict_keys_presented in Hk0. rewrite Hk0 in E. subst k0.
  apply dump_keys in H as [v [info [Hin Hrest]]].
  exists v, info. split; [|exact Hrest].
  apply In_lookup; [apply RequestModel_dict_NoDup|exact Hin].
Qed.

(** C2.  Whatever the request holds, also a non-empty [cookies] list and a
    [path], the document [save_to_disk] writes has no [cookies] key and no
    [path] key. *)
Theorem encode_omits_cookies_and_path (self : RequestModel.t) :
  ~ In (u "cookies") (document_keys (encode self))
  /\ ~ In (u "path") (document_keys (encode self)).
Proof.
  split; intros H; apply encode_keys_persisted in H; vm_compute in H;
    repeat (destruct H as [H|H]; [discriminate H|]); exact H.
Qed.

(** C6.  The request with every field at its declared default is written as
    the empty document; and in the document of any request, a field whose
    value is [None] or equals its declared default has no key. *)
Theorem encode_omits_defaults_and_none :
  encode RequestModel_default = Document (MappingNode [])
  /\ forall (self : RequestModel.t) (k : str) (info : FieldInfo) (v : pyobj),
       lookup k (model_fields cRequestModel) = Some info ->
       getattr (RequestModel_obj self) k = inr v ->
       v = ONone \/ (exists d, default info = Some d /\ py_eq v d = true) ->
       ~ In k (document_keys (encode self)).
Proof.
  split.
  - unfold encode, yaml_dump. rewrite model_dump_unfold, RequestModel_fields.
    simpl. unfold dump_attr, is_default. simpl.
    rewrite str_eqb_refl. reflexivity.
  - intros self k info v Hf Hv Hd Hin.
    apply encode_key_dumped in Hin as [v' [info' [Hv' [Hf' [_ [Hn Hdef]]]]]].
    unfold getattr, RequestModel_obj in Hv. rewrite Hv' in Hv.
    injection Hv as ->. rewrite Hf in Hf'. injection Hf' as <-.
    destruct Hd as [->|[d [Hd Heq]]].
    + discriminate Hn.
    + unfold is_default in Hdef. rewrite Hd in Hdef. congruence.
Qed.

(* ----------------------------------------------------------------- *)
(** ** Representing plain data and constructing it again *)

Section pyobj_induction.
Variable P : pyobj -> Prop.
Hypothesis HNone : P ONone.
Hypothesis HBool : forall b, P (OBool b).
Hypothesis HInt : forall z, P (OInt z).
Hypothesis HFloat : forall x, P (OFloat x).
Hypothesis HStr : forall s, P (OStr s).
Hypothesis HBytes : forall b, P (OBytes b).
Hypothesis HList : forall items, Forall P items -> P (OList items).
Hypothesis HDict :
  forall items, Forall (fun kv => P (snd kv)) items -> P (ODict items).
Hypothesis HPath : forall p, P (OPath p).
Hypothesis HSecret : forall s, P (OSecretStr s).
Hypothesis HModel :
  forall cls attrs, Forall (fun kv => P (snd kv)) attrs -> P (OModel cls attrs).

Lemma pyobj_nested_ind : forall o, P o.
Proof.
  fix IH 1. intros [|b|z|x|s|b|items|items|p|s|cls attrs].
  - exact HNone.
  - apply HBool.
  - apply HInt.
  - apply HFloat.
  - apply HStr.
  - apply HBytes.
  - apply HList. induction items as [|x items IHl]; constructor.
    + apply IH.
    + exact IHl.
  - apply HDict. induction items as [|[k x] items IHl]; constructor.
    + apply IH.
    + exact IHl.
  - apply HPath.
  - apply HSecret.
  - apply HModel. induction attrs as [|[k x] attrs IHl]; constructor.
    + apply IH.
    + exact IHl.
Qed.
End pyobj_induction.

Lemma to_python_plain (o : pyobj) : plain o = true -> to_python o = o.
Proof.
  induction o using pyobj_nested_ind; simpl; try reflexivity; try discriminate.
  - intros Hp. f_equal. induction items as [|x items IH]; [reflexivity|].
    simpl in Hp. apply andb_true_iff in Hp as [Hx Hp].
    inversion H as [|? ? Hx' H']; subst. simpl. rewrite Hx' by exact Hx.
    now rewrite IH.
  - intros Hp. apply andb_true_iff in Hp as [_ Hp]. f_equal.
    induction items as [|[k x] items IH]; [reflexivity|].
    simpl in Hp. apply andb_true_iff in Hp as [Hx Hp].
    inversion H as [|? ? Hx' H']; subst. simpl in *. rewrite Hx' by exact Hx.
    now rewrite IH.
Qed.

Lemma construct_str_presenter (s : str) :
  construct (str_presenter s) = inr (OStr (presented s)).
Proof.
  unfold presented, str_presenter.
  destruct (Nat.ltb 0 (count LF s)); reflexivity.
Qed.

Lemma construct_represent (o : pyobj) :
  plain o = true -> construct (represent o) = inr (normalize o).
Proof.
  induction o using pyobj_nested_ind; try reflexivity; try discriminate.
  - intros _. apply construct_str_presenter.
  - intros Hp. simpl in Hp. simpl.
    assert (E : construct_sequence construct (map represent items)
                = inr (map normalize items)).
    { induction items as [|x items IH]; [reflexivity|].
      simpl in Hp. apply andb_true_iff in Hp as [Hx Hp].
      inversion H as [|? ? Hx' H']; subst. simpl.
      rewrite Hx' by exact Hx. simpl. now rewrite IH. }
    now rewrite E.
  - intros Hp. simpl in Hp. apply andb_true_iff in Hp as [_ Hp]. simpl.
    assert (E : forall m,
               construct_mapping construct
                 (map (fun kv => (str_presenter (fst kv), represent (snd kv))) items) m
               = inr (fold_left
                        (fun m kv => dict_set (presented (fst kv)) (normalize (snd kv)) m)
                        items m)).
    { induction items as [|[k x] items IH]; intros m; [reflexivity|].
      simpl in Hp. apply andb_true_iff in Hp as [Hx Hp].
      inversion H as [|? ? Hx' H']; subst. simpl in *.
      rewrite construct_str_presenter. simpl.
      rewrite Hx' by exact Hx. simpl. now apply IH. }
    now rewrite E.
Qed.

Lemma unchanged_eq (s : str) : unchanged s = true <-> presented s = s.
Proof. apply str_eqb_eq. Qed.

Lemma fold_dict_set_fresh (items m : dict) :
  NoDup (keys m ++ keys items) ->
  Forall (fun k => presented k = k) (keys items) ->
  fold_left (fun m kv => dict_set (presented (fst kv)) (normalize (snd kv)) m)
    items m
  = m ++ map (fun kv => (fst kv, normalize (snd kv))) items.
Proof.
  revert m. induction items as [|[k x] items IH]; intros m Hnd Hst; simpl.
  - now rewrite app_nil_r.
  - inversion Hst as [|? ? Hk Hst']; subst. simpl in Hk. rewrite Hk.
    simpl in Hnd.
    rewrite dict_set_new.
    + rewrite IH; [now rewrite <- app_assoc| |exact Hst'].
      unfold keys. rewrite map_app. simpl. rewrite <- app_assoc. exact Hnd.
    + apply NoDup_remove_2 in Hnd. intros Hin. apply Hnd.
      apply in_or_app. now left.
Qed.

Lemma normalize_items_map (items : dict) :
  NoDup (keys items) ->
  Forall (fun k => presented k = k) (keys items) ->
  normalize_items items = map (fun kv => (fst kv, normalize (snd kv))) items.
Proof.
  intros Hnd Hst. unfold normalize_items.
  now rewrite fold_dict_set_fresh.
Qed.

Lemma normalize_stable (o : pyobj) :
  plain o = true -> stable o = true -> normalize o = o.
Proof.
  induction o using pyobj_nested_ind; try reflexivity; try discriminate.
  - intros _ Hs. simpl in *. apply unchanged_eq in Hs. now rewrite Hs.
  - intros Hp Hs. simpl in *. f_equal.
    induction items as [|x items IH]; [reflexivity|].
    simpl in *. apply andb_true_iff in Hp as [Hx Hp].
    apply andb_true_iff in Hs as [Hsx Hs].
    inversion H as [|? ? Hx' H']; subst.
    rewrite Hx' by assumption. now rewrite IH.
  - intros Hp Hs. simpl in Hp. apply andb_true_iff in Hp as [Hd Hp].
    change (normalize (ODict items)) with (ODict (normalize_items items)).
    simpl in Hs. f_equal.
    rewrite normalize_items_map.
    + clear Hd. induction items as [|[k x] items IH]; [reflexivity|].
      simpl in *. apply andb_true_iff in Hp as [Hx Hp].
      apply andb_true_iff in Hs as [Hsx Hs].
      apply andb_true_iff in Hsx as [_ Hsx].
      inversion H as [|? ? Hx' H']; subst. simpl in Hx'.
      rewrite Hx' by assumption. now rewrite IH.
    + now apply distinct_NoDup.
    + clear Hd Hp H. induction items as [|[k x] items IH]; [constructor|].
      simpl in *. apply andb_true_iff in Hs as [Hsx Hs].
      apply andb_true_iff in Hsx as [Hk _].
      constructor; [now apply unchanged_eq|now apply IH].
Qed.


(* ----------------------------------------------------------------- *)
(** ** Reading a document back *)

Lemma NoDup_distinct (l : list str) : NoDup l -> distinct l = true.
Proof.
  induction 1 as [|x l Hx Hnd IH]; simpl; [reflexivity|].
  rewrite IH, andb_true_r. apply negb_true_iff.
  destruct (existsb (str_eqb x) l) eqn:E; [|reflexivity].
  apply existsb_exists in E as [y [Hy E]]. apply str_eqb_eq in E. now subst.
Qed.

Lemma bind_ret {A B} (a : A) (k : A -> result B) : bind (inr a) k = k a.
Proof. reflexivity. Qed.

Lemma SFeqb_five (t : spec_float) :
  SFeqb t (float_of_Z 5) = true -> t = float_of_Z 5.
Proof.
  change (float_of_Z 5) with (S754_finite false 5629499534213120 (-50)).
  destruct t as [s|[|]| |s m e]; try discriminate.
  unfold SFeqb, SFcompare. destruct s; [discriminate|].
  destruct (Z.compare e (-50)) eqn:E; try discriminate.
  apply Z.compare_eq in E. subst.
  destruct (Pos.compare_cont Eq m 5629499534213120) eqn:E'; try discriminate.
  apply Pos.compare_eq in E'. now subst.
Qed.

Lemma py_eq_Options_default (o : Options.t) :
  py_eq (Options_obj o) (Options_obj Options_default) = true ->
  o = Options_default.
Proof.
  destruct o as [fr vs ac pu t]. simpl.
  rewrite !andb_true_iff. intros [Hfr [Hvs [Hac [Hpu [Ht _]]]]].
  apply Bool.eqb_prop in Hfr, Hvs, Hac. apply str_eqb_eq in Hpu.
  change (binary_round 53 1024 false 5 0) with (float_of_Z 5) in Ht.
  apply SFeqb_five in Ht. subst. reflexivity.
Qed.

Lemma validate_Header_reloaded (h : Header.t) :
  validate_Header (normalize (to_python (Header_obj h)))
  = inr (presented_Header h).
Proof. destruct h as [n v [|]]; reflexivity. Qed.

Lemma validate_QueryParam_reloaded (q : QueryParam.t) :
  validate_QueryParam (normalize (to_python (QueryParam_obj q)))
  = inr (presented_QueryParam q).
Proof. destruct q as [n v [|]]; reflexivity. Qed.

Lemma plain_Header (h : Header.t) : plain (to_python (Header_obj h)) = true.
Proof. destruct h as [n v [|]]; reflexivity. Qed.

Lemma plain_QueryParam (q : QueryParam.t) :
  plain (to_python (QueryParam_obj q)) = true.
Proof. destruct q as [n v [|]]; reflexivity. Qed.

Lemma validate_Options_reloaded (o : Options.t) :
  validate_Options (normalize (to_python (Options_obj o)))
  = inr (presented_Options o).
Proof.
  destruct o as [fr vs ac pu t].
  unfold Options_obj, presented_Options. simpl to_python.
  unfold dump_attr, is_default. simpl.
  destruct fr, vs, ac;
    destruct (str_eqb pu []) eqn:E1;
    destruct (SFeqb t (binary_round 53 1024 false 5 0)) eqn:E2;
    try (apply str_eqb_eq in E1; subst pu);
    try (apply SFeqb_five in E2; subst t);
    reflexivity.
Qed.

Lemma plain_Options (o : Options.t) : plain (to_python (Options_obj o)) = true.
Proof.
  destruct o as [fr vs ac pu t].
  unfold Options_obj. simpl to_python. unfold dump_attr, is_default. simpl.
  destruct fr, vs, ac;
    destruct (str_eqb pu []);
    destruct (SFeqb t (binary_round 53 1024 false 5 0));
    reflexivity.
Qed.

Lemma reloaded_kwargs_lookup (self : RequestModel.t) (file_path k : str) :
  lookup k (reloaded_kwargs self file_path)
  = match
      option_map normalize
        match lookup k (RequestModel_dict self),
              lookup k (model_fields cRequestModel) with
        | Some v, Some info =>
            if exclude info then None
            else if is_none v then None
            else if is_default info v then None
            else Some (to_python v)
        | _, _ => None
        end
    with
    | Some v => Some v
    | None => lookup k [(u "path", OPath (Path_of file_path))]
    end.
Proof.
  unfold reloaded_kwargs.
  rewrite lookup_app, lookup_map, lookup_dump by apply RequestModel_dict_NoDup.
  reflexivity.
Qed.

Lemma kwargs_lookup (self : RequestModel.t) (file_path k : str)
    (v : pyobj) (info : FieldInfo) :
  lookup k (RequestModel_dict self) = Some v ->
  lookup k (model_fields cRequestModel) = Some info ->
  lookup k (reloaded_kwargs self file_path)
  = if exclude info || is_none v || is_default info v
    then lookup k [(u "path", OPath (Path_of file_path))]
    else Some (normalize (to_python v)).
Proof.
  intros Hv Hinfo. rewrite reloaded_kwargs_lookup, Hv, Hinfo.
  destruct (exclude info), (is_none v), (is_default info v); reflexivity.
Qed.

Lemma field_reloaded {A} (validate : pyobj -> result A) (dflt : A)
    (self : RequestModel.t) (file_path k : str) (v : pyobj) (info : FieldInfo) :
  lookup k (RequestModel_dict self) = Some v ->
  lookup k (model_fields cRequestModel) = Some info ->
  str_eqb k (u "path") = false ->
  field validate (Some dflt) k (reloaded_kwargs self file_path)
  = if exclude info || is_none v || is_default info v then ret dflt
    else validate (normalize (to_python v)).
Proof.
  intros Hv Hinfo Hk. unfold field.
  rewrite (kwargs_lookup self file_path k Hv Hinfo).
  destruct (exclude info || is_none v || is_default info v); [|reflexivity].
  simpl. now rewrite Hk.
Qed.

Ltac reload v info :=
  rewrite (@field_reloaded _ _ _ _ _ _ v info) by reflexivity.

Lemma kw_name (self : RequestModel.t) (file_path : str) :
  field validate_str (Some []) (u "name") (reloaded_kwargs self file_path)
  = inr (presented (RequestModel.name self)).
Proof.
  reload (OStr (RequestModel.name self)) (Field (OStr [])).
  simpl. unfold is_default. simpl. destruct (str_eqb (RequestModel.name self) []) eqn:E; [|reflexivity].
  apply str_eqb_eq in E. now rewrite E.
Qed.

Lemma kw_description (self : RequestModel.t) (file_path : str) :
  field validate_str (Some []) (u "description") (reloaded_kwargs self file_path)
  = inr (presented (RequestModel.description self)).
Proof.
  reload (OStr (RequestModel.description self)) (Field (OStr [])).
  simpl. unfold is_default. simpl. destruct (str_eqb (RequestModel.description self) []) eqn:E; [|reflexivity].
  apply str_eqb_eq in E. now rewrite E.
Qed.

Lemma kw_method (self : RequestModel.t) (file_path : str) :
  field validate_method (Some GET) (u "method") (reloaded_kwargs self file_path)
  = inr (RequestModel.method self).
Proof.
  reload (OStr (HttpRequestMethod_str (RequestModel.method self)))
         (Field (OStr (u "GET"))).
  destruct (RequestModel.method self); reflexivity.
Qed.

Lemma kw_url (self : RequestModel.t) (file_path : str) :
  field validate_str (Some []) (u "url") (reloaded_kwargs self file_path)
  = inr (presented (RequestModel.url self)).
Proof.
  reload (OStr (RequestModel.url self)) (Field (OStr [])).
  simpl. unfold is_default. simpl. destruct (str_eqb (RequestModel.url self) []) eqn:E; [|reflexivity].
  apply str_eqb_eq in E. now rewrite E.
Qed.

Lemma kw_path (self : RequestModel.t) (file_path : str) :
  field (validate_optional validate_path) (Some None) (u "path")
    (reloaded_kwargs self file_path)
  = inr (Some (Path_of file_path)).
Proof.
  unfold field.
  rewrite (@kwargs_lookup self file_path _ (opt_obj OPath (RequestModel.path self))
             (Field_exclude ONone)) by reflexivity.
  reflexivity.
Qed.

Lemma validate_dict_reloaded (d : option dict) :
  plain (opt_obj ODict d) = true ->
  (if false || is_none (opt_obj ODict d) || is_default (Field ONone) (opt_obj ODict d)
   then ret None
   else validate_optional validate_dict (normalize (to_python (opt_obj ODict d))))
  = inr (option_map normalize_items d).
Proof.
  intros Hp. destruct d as [d|]; [|reflexivity].
  rewrite to_python_plain by exact Hp. reflexivity.
Qed.

Lemma kw_json_body (self : RequestModel.t) (file_path : str) :
  plain (opt_obj ODict (RequestModel.json_body self)) = true ->
  field (validate_optional validate_dict) (Some None) (u "json_body")
    (reloaded_kwargs self file_path)
  = inr (option_map normalize_items (RequestModel.json_body self)).
Proof.
  intros Hp.
  reload (opt_obj ODict (RequestModel.json_body self)) (Field ONone).
  now apply validate_dict_reloaded.
Qed.

Lemma kw_form_data (self : RequestModel.t) (file_path : str) :
  plain (opt_obj ODict (RequestModel.form_data self)) = true ->
  field (validate_optional validate_dict) (Some None) (u "form_data")
    (reloaded_kwargs self file_path)
  = inr (option_map normalize_items (RequestModel.form_data self)).
Proof.
  intros Hp.
  reload (opt_obj ODict (RequestModel.form_data self)) (Field ONone).
  now apply validate_dict_reloaded.
Qed.

Lemma kw_content (self : RequestModel.t) (file_path : str) :
  field (validate_optional validate_content) (Some None) (u "content")
    (reloaded_kwargs self file_path)
  = inr (option_map presented_content (RequestModel.content self)).
Proof.
  reload (opt_obj content_obj (RequestModel.content self)) (Field ONone).
  destruct (RequestModel.content self) as [[c|b]|]; reflexivity.
Qed.

Lemma kw_auth (self : RequestModel.t) (file_path : str) :
  field (validate_optional validate_Auth) (Some None) (u "auth")
    (reloaded_kwargs self file_path)
  = inr None.
Proof.
  reload (opt_obj Auth_obj (RequestModel.auth self)) (Field_exclude ONone).
  reflexivity.
Qed.

Lemma mapM_Header_reloaded (hs : list Header.t) :
  mapM validate_Header (map normalize (map to_python (map Header_obj hs)))
  = inr (map presented_Header hs).
Proof.
  induction hs as [|h hs IH]; [reflexivity|].
  cbn [map mapM]. rewrite validate_Header_reloaded, bind_ret, IH.
  reflexivity.
Qed.

Lemma mapM_QueryParam_reloaded (qs : list QueryParam.t) :
  mapM validate_QueryParam (map normalize (map to_python (map QueryParam_obj qs)))
  = inr (map presented_QueryParam qs).
Proof.
  induction qs as [|q qs IH]; [reflexivity|].
  cbn [map mapM]. rewrite validate_QueryParam_reloaded, bind_ret, IH.
  reflexivity.
Qed.

Lemma kw_headers (self : RequestModel.t) (file_path : str) :
  field (validate_list validate_Header) (Some []) (u "headers")
    (reloaded_kwargs self file_path)
  = inr (map presented_Header (RequestModel.headers self)).
Proof.
  reload (OList (map Header_obj (RequestModel.headers self))) (Field (OList [])).
  destruct (RequestModel.headers self) as [|h hs]; [reflexivity|].
  apply (mapM_Header_reloaded (h :: hs)).
Qed.

Lemma kw_params (self : RequestModel.t) (file_path : str) :
  field (validate_list validate_QueryParam) (Some []) (u "params")
    (reloaded_kwargs self file_path)
  = inr (map presented_QueryParam (RequestModel.params self)).
Proof.
  reload (OList (map QueryParam_obj (RequestModel.params self))) (Field (OList [])).
  destruct (RequestModel.params self) as [|q qs]; [reflexivity|].
  apply (mapM_QueryParam_reloaded (q :: qs)).
Qed.

Lemma kw_cookies (self : RequestModel.t) (file_path : str) :
  field (validate_list validate_Cookie) (Some []) (u "cookies")
    (reloaded_kwargs self file_path)
  = inr [].
Proof.
  reload (OList (map Cookie_obj (RequestModel.cookies self)))
         (Field_exclude (OList [])).
  reflexivity.
Qed.

Lemma kw_posting_version (self : RequestModel.t) (file_path : str) :
  field validate_str (Some VERSION) (u "posting_version")
    (reloaded_kwargs self file_path)
  = inr (if str_eqb (RequestModel.posting_version self) VERSION then VERSION
         else presented (RequestModel.posting_version self)).
Proof.
  reload (OStr (RequestModel.posting_version self)) (Field (OStr VERSION)).
  simpl. unfold is_default. simpl. destruct (str_eqb (RequestModel.posting_version self) VERSION);
    reflexivity.
Qed.

Lemma kw_options (self : RequestModel.t) (file_path : str) :
  field validate_Options (Some Options_default) (u "options")
    (reloaded_kwargs self file_path)
  = inr (presented_Options (RequestModel.options self)).
Proof.
  reload (Options_obj (RequestModel.options self))
         (Field (Options_obj Options_default)).
  change (is_default (Field (Options_obj Options_default))
            (Options_obj (RequestModel.options self)))
    with (py_eq (Options_obj (RequestModel.options self))
            (Options_obj Options_default)).
  destruct (py_eq (Options_obj (RequestModel.options self))
              (Options_obj Options_default)) eqn:E.
  - apply py_eq_Options_default in E. rewrite E. reflexivity.
  - apply validate_Options_reloaded.
Qed.

Lemma RequestModel_init_reloaded (self : RequestModel.t) (file_path : str) :
  plain_bodies self = true ->
  RequestModel_init (reloaded_kwargs self file_path)
  = inr (reloaded self file_path).
Proof.
  intros Hp. apply andb_true_iff in Hp as [Hj Hf].
  unfold RequestModel_init.
  rewrite kw_name, bind_ret, kw_description, bind_ret, kw_method, bind_ret,
    kw_url, bind_ret, kw_path, bind_ret, (kw_json_body _ _ Hj), bind_ret,
    (kw_form_data _ _ Hf), bind_ret, kw_content, bind_ret, kw_auth, bind_ret,
    kw_headers, bind_ret, kw_params, bind_ret, kw_cookies, bind_ret,
    kw_posting_version, bind_ret, kw_options, bind_ret.
  reflexivity.
Qed.

Lemma plain_Headers (hs : list Header.t) :
  forallb plain (map to_python (map Header_obj hs)) = true.
Proof.
  induction hs as [|h hs IH]; [reflexivity|].
  cbn [map forallb]. now rewrite plain_Header, IH.
Qed.

Lemma plain_QueryParams (qs : list QueryParam.t) :
  forallb plain (map to_python (map QueryParam_obj qs)) = true.
Proof.
  induction qs as [|q qs IH]; [reflexivity|].
  cbn [map forallb]. now rewrite plain_QueryParam, IH.
Qed.

Lemma model_dump_plain (self : RequestModel.t) :
  plain_bodies self = true -> plain (model_dump self) = true.
Proof.
  intros Hp. apply andb_true_iff in Hp as [Hj Hf].
  rewrite model_dump_unfold. cbn [plain]. apply andb_true_iff. split.
  - apply NoDup_distinct, dump_keys_NoDup, RequestModel_dict_NoDup.
  - apply forallb_forall. intros kv Hin.
    apply dump_values in Hin as [v [info [Hin [-> [Hinfo Hex]]]]].
    rewrite RequestModel_fields in Hinfo. simpl in Hin.
    repeat (destruct Hin as [Hin|Hin];
            [injection Hin as Hk <-; rewrite <- Hk in Hinfo;
             vm_compute in Hinfo; injection Hinfo as <-;
             try discriminate Hex; clear Hk Hex|]);
      try contradiction; try reflexivity.
    + now rewrite to_python_plain.
    + now rewrite to_python_plain.
    + destruct (RequestModel.content self) as [[c|b]|]; reflexivity.
    + apply plain_Headers.
    + apply plain_QueryParams.
    + apply plain_Options.
Qed.

Lemma model_dump_keys_presented (self : RequestModel.t) :
  Forall (fun k => presented k = k)
    (keys (flat_map (dump_attr to_python (model_fields cRequestModel))
             (RequestModel_dict self))).
Proof.
  apply Forall_forall. intros k Hin. apply dump_keys_attrs in Hin.
  now apply RequestModel_dict_keys_presented in Hin.
Qed.

(** The document of a request always reads back, as [reloaded] says. *)
Lemma decode_encode (self : RequestModel.t) (file_path : str) :
  plain_bodies self = true ->
  decode (encode self) file_path = inr (reloaded self file_path).
Proof.
  intros Hp. unfold decode, encode, yaml_dump, yaml_safe_load.
  rewrite construct_represent by now apply model_dump_plain.
  rewrite bind_ret, model_dump_unfold.
  change (normalize (ODict ?d)) with (ODict (normalize_items d)).
  rewrite normalize_items_map;
    [|apply dump_keys_NoDup, RequestModel_dict_NoDup
     |apply model_dump_keys_presented].
  rewrite lookup_map, lookup_dump by apply RequestModel_dict_NoDup.
  rewrite RequestModel_fields. cbn [lookup RequestModel_dict str_eqb].
  change (RequestModel_init (reloaded_kwargs self file_path)
          = inr (reloaded self file_path)).
  now apply RequestModel_init_reloaded.
Qed.

Lemma normalize_items_stable (d : dict) :
  plain (ODict d) = true -> stable (ODict d) = true -> normalize_items d = d.
Proof.
  intros Hp Hs. pose proof (normalize_stable (ODict d) Hp Hs) as E.
  change (normalize (ODict d)) with (ODict (normalize_items d)) in E.
  now injection E.
Qed.

Lemma option_normalize_items_stable (d : option dict) :
  plain (opt_obj ODict d) = true -> stable (opt_obj ODict d) = true ->
  option_map normalize_items d = d.
Proof.
  destruct d as [d|]; [|reflexivity]. intros Hp Hs. simpl.
  now rewrite normalize_items_stable.
Qed.

Lemma reloaded_stable (self : RequestModel.t) (file_path : str) :
  plain_bodies self = true -> stable_request self = true ->
  same_persisted (reloaded self file_path) self.
Proof.
  intros Hp Hs. apply andb_true_iff in Hp as [Hj Hf].
  unfold stable_request in Hs. rewrite !andb_true_iff in Hs.
  destruct Hs as [[[[[[[[[Hn Hd] Hu] Hsj] Hsf] Hc] Hh] Hq] Hv] Ho].
  apply unchanged_eq in Hn, Hd, Hu, Hv, Ho.
  unfold same_persisted, reloaded. cbn [RequestModel.name
    RequestModel.description RequestModel.method RequestModel.url
    RequestModel.json_body RequestModel.form_data RequestModel.content
    RequestModel.headers RequestModel.params RequestModel.posting_version
    RequestModel.options].
  repeat split; try assumption.
  - now apply option_normalize_items_stable.
  - now apply option_normalize_items_stable.
  - destruct (RequestModel.content self) as [[c|b]|]; try reflexivity.
    simpl in *. apply unchanged_eq in Hc. now rewrite Hc.
  - clear -Hh. induction (RequestModel.headers self) as [|h hs IH]; [reflexivity|].
    simpl in *. apply andb_true_iff in Hh as [Hh Hhs].
    apply andb_true_iff in Hh as [H1 H2]. apply unchanged_eq in H1, H2.
    rewrite IH by exact Hhs. destruct h as [n v e].
    unfold presented_Header. simpl in *. now rewrite H1, H2.
  - clear -Hq. induction (RequestModel.params self) as [|q qs IH]; [reflexivity|].
    simpl in *. apply andb_true_iff in Hq as [Hq Hqs].
    apply andb_true_iff in Hq as [H1 H2]. apply unchanged_eq in H1, H2.
    rewrite IH by exact Hqs. destruct q as [n v e].
    unfold presented_QueryParam. simpl in *. now rewrite H1, H2.
  - destruct (str_eqb (RequestModel.posting_version self) VERSION) eqn:E;
      [|exact Hv].
    apply str_eqb_eq in E. now symmetry.
  - destruct (RequestModel.options self) as [fr vs ac pu t].
    unfold presented_Options. simpl in *. now rewrite Ho.
Qed.

(* ----------------------------------------------------------------- *)
(** ** The claims on documents *)

(** C1, amended.  For a request whose JSON body and form data are plain data
    and whose strings are all left as they are by [str_presenter], reading
    back the document written for it gives a request equal to it on every
    field that reaches the document: all but [cookies], [path] and [auth]. *)
Theorem roundtrip_of_stable_requests (self : RequestModel.t) (file_path : str) :
  plain_bodies self = true ->
  stable_request self = true ->
  exists e, decode (encode self) file_path = inr e /\ same_persisted e self.
Proof.
  intros Hp Hs. exists (reloaded self file_path). split.
  - now apply decode_encode.
  - now apply reloaded_stable.
Qed.



(** C10.  The class body declares [auth] twice, first as an ordinary field
    and then with [exclude=True]; the field table keeps the second; no
    document has an [auth] key; and the request read back from a document
    has no [auth]. *)
Theorem auth_is_never_persisted :
  map (fun kv => exclude (snd kv))
    (filter (fun kv => str_eqb (fst kv) (u "auth")) RequestModel_class)
  = [false; true]
  /\ option_map exclude (lookup (u "auth") (model_fields cRequestModel)) = Some true
  /\ forall self : RequestModel.t,
       ~ In (u "auth") (document_keys (encode self))
       /\ forall file_path : str,
            plain_bodies self = true ->
            exists e, decode (encode self) file_path = inr e
                      /\ RequestModel.auth e = None.
Proof.
  split; [reflexivity|]. split; [reflexivity|]. intros self. split.
  - intros H. apply encode_keys_persisted in H. vm_compute in H.
    repeat (destruct H as [H|H]; [discriminate H|]). exact H.
  - intros file_path Hp. exists (reloaded self file_path).
    split; [now apply decode_encode|reflexivity].
Qed.

(* ----------------------------------------------------------------- *)
(** ** [to_httpx] *)

Lemma getattr_body (self : RequestModel.t) :
  getattr (RequestModel_obj self) (u "body") = inl (AttributeError (u "body")).
Proof. reflexivity. Qed.

(** C8 fails on the code: [to_httpx] reads [self.body], an attribute a
    request does not have, and raises before any request is built. *)
Theorem to_httpx_raises (self : RequestModel.t) :
  to_httpx self = inl (AttributeError (u "body")).
Proof. reflexivity. Qed.

(* ----------------------------------------------------------------- *)
(** ** The collection tree *)

Lemma names_unique_iff (c : Collection) :
  names_unique c
  <-> NoDup (map Collection_name (Collection_children c))
      /\ Forall names_unique (Collection_children c).
Proof.
  destruct c as [p n rs cs]. simpl.
  assert (E : (fix each (cs : list Collection) : Prop :=
                 match cs with
                 | [] => True
                 | c' :: cs' => names_unique c' /\ each cs'
                 end) cs <-> Forall names_unique cs).
  { induction cs as [|c cs IH]; split; intros H.
    - constructor.
    - exact I.
    - destruct H as [Hc Hcs]. constructor; [exact Hc|now apply IH].
    - inversion H; subst. split; [assumption|now apply IH]. }
  now rewrite E.
Qed.

Lemma add_request_name (path_parts : list str) (subpath : Path)
    (request : RequestModel.t) (c : Collection) :
  Collection_name (add_request path_parts subpath request c) = Collection_name c.
Proof. destruct path_parts; reflexivity. Qed.

Lemma add_request_path (path_parts : list str) (subpath : Path)
    (request : RequestModel.t) (c : Collection) :
  Collection_path (add_request path_parts subpath request c) = Collection_path c.
Proof. destruct path_parts; reflexivity. Qed.

Section Enter.
Variable part : str.
Variable descend : Collection -> Collection.
Variable new_collection : Collection.
Hypothesis descend_name :
  forall c, Collection_name (descend c) = Collection_name c.
Hypothesis new_name : Collection_name new_collection = part.

Let named (child : Collection) : bool := str_eqb (Collection_name child) part.

Lemma enter_names (children : list Collection) :
  map Collection_name (enter part descend new_collection children)
  = if existsb named children then map Collection_name children
    else map Collection_name children ++ [part].
Proof.
  induction children as [|child others IH]; simpl.
  - now rewrite descend_name, new_name.
  - unfold named at 1. destruct (str_eqb (Collection_name child) part); simpl.
    + now rewrite descend_name.
    + rewrite IH. now destruct (existsb named others).
Qed.

Lemma enter_names_NoDup (children : list Collection) :
  NoDup (map Collection_name children) ->
  NoDup (map Collection_name (enter part descend new_collection children)).
Proof.
  intros Hnd. rewrite enter_names.
  destruct (existsb named children) eqn:E; [exact Hnd|].
  apply NoDup_app; [exact Hnd|repeat constructor; simpl; tauto|].
  intros x Hin [<-|[]]. apply in_map_iff in Hin as [child [Hname Hin]].
  assert (existsb named children = true).
  { apply existsb_exists. exists child. split; [exact Hin|].
    unfold named. rewrite Hname. apply str_eqb_refl. }
  congruence.
Qed.

Lemma enter_Forall (P : Collection -> Prop) (children : list Collection) :
  (forall c, P c -> P (descend c)) -> P new_collection ->
  Forall P children ->
  Forall P (enter part descend new_collection children).
Proof.
  intros Hd Hn. induction 1 as [|child others Hc Ho IH]; simpl.
  - constructor; [now apply Hd|constructor].
  - destruct (str_eqb (Collection_name child) part).
    + constructor; [now apply Hd|exact Ho].
    + constructor; [exact Hc|exact IH].
Qed.

Lemma find_enter (children : list Collection) :
  find named (enter part descend new_collection children)
  = Some (descend match find named children with
                  | Some child => child
                  | None => new_collection
                  end).
Proof.
  induction children as [|child others IH]; simpl.
  - unfold named at 1. now rewrite descend_name, new_name, str_eqb_refl.
  - unfold named at 2 3. destruct (str_eqb (Collection_name child) part) eqn:E; simpl.
    + unfold named at 1. now rewrite descend_name, E.
    + unfold named at 1. now rewrite E.
Qed.

Lemma enter_all_requests (request : RequestModel.t)
    (children : list Collection) :
  (forall c, Permutation (all_requests (descend c)) (request :: all_requests c)) ->
  all_requests new_collection = [] ->
  Permutation
    (flat_map all_requests (enter part descend new_collection children))
    (request :: flat_map all_requests children).
Proof.
  intros Hd Hn. induction children as [|child others IH]; simpl.
  - rewrite app_nil_r. rewrite Hd, Hn. reflexivity.
  - destruct (str_eqb (Collection_name child) part); simpl.
    + now rewrite Hd.
    + rewrite IH. apply Permutation_sym, Permutation_middle.
Qed.
End Enter.

Lemma add_request_names_unique (path_parts : list str) :
  forall (subpath : Path) (request : RequestModel.t) (c : Collection),
    names_unique c -> names_unique (add_request path_parts subpath request c).
Proof.
  induction path_parts as [|part rest IH]; intros subpath request c Hc.
  - destruct c as [p n rs cs]. exact Hc.
  - apply names_unique_iff in Hc as [Hnd Hall].
    apply names_unique_iff. cbn [add_request Collection_children]. split.
    + apply enter_names_NoDup; [|reflexivity|exact Hnd].
      intros c'. apply add_request_name.
    + apply enter_Forall; [| |exact Hall].
      * intros c' Hc'. now apply IH.
      * simpl. split; [constructor|exact I].
Qed.

Lemma add_request_all_requests (path_parts : list str) :
  forall (subpath : Path) (request : RequestModel.t) (c : Collection),
    Permutation (all_requests (add_request path_parts subpath request c))
      (request :: all_requests c).
Proof.
  induction path_parts as [|part rest IH]; intros subpath request c.
  - destruct c as [p n rs cs]. simpl. rewrite <- app_assoc. simpl.
    apply Permutation_sym, Permutation_middle.
  - destruct c as [p n rs cs]. cbn [add_request all_requests Collection_path
      Collection_name Collection_requests Collection_children].
    rewrite enter_all_requests with (request := request).
    + apply Permutation_sym, Permutation_middle.
    + intros c'. apply IH.
    + destruct rest; reflexivity.
Qed.

Lemma node_at_add_request (path_parts : list str) :
  forall (subpath : Path) (request : RequestModel.t) (c : Collection),
    exists n,
      node_at path_parts (add_request path_parts subpath request c) = Some n
      /\ Collection_requests n = requests_at path_parts c ++ [request].
Proof.
  induction path_parts as [|part rest IH]; intros subpath request c.
  - eexists. split; reflexivity.
  - cbn [add_request node_at Collection_children].
    rewrite find_enter;
      [|intros c'; apply add_request_name|reflexivity].
    unfold requests_at. cbn [node_at].
    destruct (find (fun child => str_eqb (Collection_name child) part)
                (Collection_children c)) as [child|] eqn:E.
    + apply IH.
    + destruct (IH (Path_div subpath part) request
                  (mkCollection (Path_div subpath part) part [] []))
        as [n [Hn Hr]].
      exists n. split; [exact Hn|]. rewrite Hr. unfold requests_at.
      destruct rest; reflexivity.
Qed.

(** What the loop of [from_directory] keeps. *)

Lemma load_request_from_yaml_print (w : World) (l : Line) (file_path : str) :
  load_request_from_yaml (print w l) file_path
  = load_request_from_yaml w file_path.
Proof. reflexivity. Qed.

Lemma load_request_from_yaml_files (w w' : World) (file_path : str) :
  cwd w' = cwd w -> entries w' = entries w ->
  load_request_from_yaml w' file_path = load_request_from_yaml w file_path.
Proof.
  intros Hc He. unfold load_request_from_yaml, open, absolute.
  now rewrite Hc, He.
Qed.

Lemma from_directory_loop (directory : str) (w : World)
    (request_files : list Path) :
  forall (root_collection : Collection) (w' : World),
    cwd w' = cwd w -> entries w' = entries w ->
    names_unique root_collection ->
    let result :=
      fold_left (from_directory_step directory) request_files
        (root_collection, w') in
    names_unique (fst result)
    /\ Permutation (all_requests (fst result))
         (all_requests root_collection ++ loaded w request_files)
    /\ stdout (snd result) = stdout w' ++ failures w request_files
    /\ cwd (snd result) = cwd w
    /\ entries (snd result) = entries w.
Proof.
  induction request_files as [|file_path files IH];
    intros root_collection w' Hc He Hu; simpl.
  - rewrite !app_nil_r. repeat split; auto.
  - unfold from_directory_step at 2.
    rewrite (@load_request_from_yaml_files w w' _ Hc He).
    unfold loaded, failures. cbn [flat_map].
    destruct (load_request_from_yaml w (Path_str file_path)) as [e|request].
    + destruct (IH root_collection (print w' (FailedToLoad file_path e)) Hc He Hu)
        as [H1 [H2 [H3 [H4 H5]]]].
      repeat split; try assumption.
      rewrite H3. simpl. now rewrite <- app_assoc.
    + match goal with
      | |- context [fold_left _ files (?t, w')] =>
          destruct (IH t w' Hc He) as [H1 [H2 [H3 [H4 H5]]]]
      end.
      { now apply add_request_names_unique. }
      repeat split; try assumption.
      etransitivity; [exact H2|].
      etransitivity; [apply Permutation_app_tail, add_request_all_requests|].
      simpl. apply Permutation_middle.
Qed.

(** C3.  Whatever the discovered files hold, [from_directory] returns a
    tree; its requests are exactly those of the files that load; for each
    file that does not load one line is printed, and nothing else
    happens. *)
Theorem malformed_documents_are_skipped (w : World) (directory : str) :
  let request_files :=
    rglob w (directory_path_of w directory) (u "*.posting.yaml") in
  Permutation (all_requests (fst (from_directory w directory)))
    (loaded w request_files)
  /\ stdout (snd (from_directory w directory))
     = stdout w ++ failures w request_files
  /\ cwd (snd (from_directory w directory)) = cwd w
  /\ entries (snd (from_directory w directory)) = entries w.
Proof.
  intros request_files. unfold from_directory.
  match goal with
  | |- context [fold_left (from_directory_step ?d) _ (?t, w)] =>
      destruct (@from_directory_loop d w request_files t w eq_refl eq_refl)
        as [_ [H2 H3]]
  end.
  - simpl. split; [constructor|exact I].
  - split; [exact H2|exact H3].
Qed.

(** C5.  In the tree [from_directory] returns, the children of every node
    have different names; and two requests added along the same chain of
    directory names end in one and the same node, the second right after
    the first. *)
Theorem sibling_names_are_unique :
  (forall (w : World) (directory : str),
     names_unique (fst (from_directory w directory)))
  /\ forall (path_parts : list str) (subpath1 subpath2 : Path)
       (request1 request2 : RequestModel.t) (c : Collection),
       exists n,
         node_at path_parts
           (add_request path_parts subpath2 request2
              (add_request path_parts subpath1 request1 c)) = Some n
         /\ Collection_requests n
            = requests_at path_parts c ++ [request1; request2].
Proof.
  split.
  - intros w directory. unfold from_directory.
    match goal with
    | |- context [fold_left (from_directory_step ?d) ?fs (?t, w)] =>
        destruct (@from_directory_loop d w fs t w eq_refl eq_refl) as [H1 _]
    end.
    + simpl. split; [constructor|exact I].
    + exact H1.
  - intros path_parts subpath1 subpath2 request1 request2 c.
    destruct (node_at_add_request path_parts subpath1 request1 c)
      as [n1 [Hn1 Hr1]].
    destruct (node_at_add_request path_parts subpath2 request2
                (add_request path_parts subpath1 request1 c)) as [n2 [Hn2 Hr2]].
    exists n2. split; [exact Hn2|].
    rewrite Hr2. unfold requests_at at 1. rewrite Hn1, Hr1.
    now rewrite <- app_assoc.
Qed.

(* ----------------------------------------------------------------- *)
(** ** Paths and their parts *)

Lemma clean_nonempty (x : str) : clean x = true -> x <> [].
Proof.
  unfold clean, is_part. intros H E. subst. discriminate H.
Qed.

Lemma clean_no_slash (x : str) (c : char) :
  clean x = true -> In c x -> c <> SLASH.
Proof.
  unfold clean. intros H Hin E. subst c.
  apply andb_true_iff in H as [_ H]. apply negb_true_iff in H.
  assert (existsb (char_eqb SLASH) x = true)
    by (apply existsb_exists; exists SLASH; split;
        [exact Hin|apply char_eqb_refl]).
  congruence.
Qed.

Lemma char_eqb_neq (a b : char) : a <> b -> char_eqb a b = false.
Proof. intros H. now apply N.eqb_neq. Qed.

Lemma join_cons2 (sep x y : str) (l : list str) :
  join sep (x :: y :: l) = x ++ sep ++ join sep (y :: l).
Proof. reflexivity. Qed.

Lemma join_app (sep : str) (l1 l2 : list str) :
  l1 <> [] -> l2 <> [] ->
  join sep (l1 ++ l2) = join sep l1 ++ sep ++ join sep l2.
Proof.
  intros H1 H2. induction l1 as [|x l1 IH]; [contradiction|].
  destruct l1 as [|y l1].
  - destruct l2 as [|z l2]; [contradiction|]. reflexivity.
  - change ((x :: y :: l1) ++ l2) with (x :: y :: (l1 ++ l2)).
    rewrite !join_cons2. change (y :: l1 ++ l2) with ((y :: l1) ++ l2).
    rewrite IH by discriminate. now rewrite <- !app_assoc.
Qed.

Lemma skipn_length_app {A} (l l' : list A) :
  skipn (List.length l) (l ++ l') = l'.
Proof. induction l as [|x l IH]; [reflexivity|exact IH]. Qed.

Lemma str_split_no_sep (x : str) :
  (forall c, In c x -> c <> SLASH) -> str_split SLASH x = [x].
Proof.
  induction x as [|c x IH]; intros H; [reflexivity|]. simpl.
  rewrite char_eqb_neq by (apply H; now left).
  rewrite IH by (intros c' Hc'; apply H; now right). reflexivity.
Qed.

Lemma str_split_app (x rest : str) :
  (forall c, In c x -> c <> SLASH) ->
  str_split SLASH (x ++ SLASH :: rest) = x :: str_split SLASH rest.
Proof.
  induction x as [|c x IH]; intros H; simpl.
  - reflexivity.
  - rewrite char_eqb_neq by (apply H; now left).
    rewrite IH by (intros c' Hc'; apply H; now right). reflexivity.
Qed.

Lemma str_split_join (segs : list str) :
  segs <> [] -> Forall (fun x => clean x = true) segs ->
  str_split SLASH (join [SLASH] segs) = segs.
Proof.
  intros Hne Hall. induction segs as [|x segs IH]; [contradiction|].
  inversion Hall as [|? ? Hx Hall']; subst.
  destruct segs as [|y segs].
  - simpl. apply str_split_no_sep. intros c. now apply clean_no_slash.
  - rewrite join_cons2.
    change (x ++ [SLASH] ++ join [SLASH] (y :: segs))
      with (x ++ SLASH :: join [SLASH] (y :: segs)).
    rewrite str_split_app.
    + rewrite IH; [reflexivity|discriminate|exact Hall'].
    + intros c. now apply clean_no_slash.
Qed.

Lemma join_first (segs : list str) :
  segs <> [] -> Forall (fun x => clean x = true) segs ->
  exists c t, join [SLASH] segs = c :: t /\ c <> SLASH.
Proof.
  intros Hne Hall. destruct segs as [|x segs]; [contradiction|].
  inversion Hall as [|? ? Hx Hall']; subst.
  destruct x as [|c x]; [now apply clean_nonempty in Hx|].
  assert (c <> SLASH) by (apply (@clean_no_slash (c :: x)); [exact Hx|now left]).
  destruct segs as [|y segs].
  - now exists c, x.
  - rewrite join_cons2. simpl. eauto.
Qed.

Lemma join_last (segs : list str) :
  segs <> [] -> Forall (fun x => clean x = true) segs ->
  exists t c, join [SLASH] segs = t ++ [c] /\ c <> SLASH.
Proof.
  intros Hne Hall. induction segs as [|x segs IH]; [contradiction|].
  inversion Hall as [|? ? Hx Hall']; subst.
  destruct segs as [|y segs].
  - simpl. destruct (exists_last (clean_nonempty Hx)) as [t [c E]].
    exists t, c. split; [exact E|].
    apply (@clean_no_slash x); [exact Hx|]. rewrite E. apply in_or_app.
    right. now left.
  - destruct IH as [t [c [E Hc]]]; [discriminate|exact Hall'|].
    rewrite join_cons2, E. exists (x ++ [SLASH] ++ t), c.
    split; [now rewrite <- !app_assoc|exact Hc].
Qed.

Lemma lstrip_chars_keep (c : char) (t : str) :
  c <> SLASH -> lstrip_chars os_path_sep (c :: t) = c :: t.
Proof.
  intros H. simpl. unfold char_eqb. rewrite (proj2 (N.eqb_neq c SLASH) H).
  reflexivity.
Qed.

Lemma strip_join (segs : list str) :
  segs <> [] -> Forall (fun x => clean x = true) segs ->
  strip os_path_sep (join [SLASH] segs) = join [SLASH] segs
  /\ strip os_path_sep ([SLASH] ++ join [SLASH] segs) = join [SLASH] segs.
Proof.
  intros Hne Hall.
  destruct (join_first Hne Hall) as [c [t [E Hc]]].
  destruct (join_last Hne Hall) as [t' [c' [E' Hc']]].
  assert (Hl : lstrip_chars os_path_sep (join [SLASH] segs) = join [SLASH] segs)
    by (rewrite E; now apply lstrip_chars_keep).
  assert (Hr : rstrip_chars os_path_sep (join [SLASH] segs) = join [SLASH] segs).
  { unfold rstrip_chars. rewrite E', rev_app_distr.
    change (rev [c'] ++ rev t') with (c' :: rev t').
    rewrite lstrip_chars_keep by exact Hc'.
    change (c' :: rev t') with (rev [c'] ++ rev t').
    rewrite <- rev_app_distr. apply rev_involutive. }
  unfold strip. split.
  - now rewrite Hl.
  - change (lstrip_chars os_path_sep ([SLASH] ++ join [SLASH] segs))
      with (lstrip_chars os_path_sep (join [SLASH] segs)).
    now rewrite Hl.
Qed.

Lemma Path_str_nonempty (r : str) (ps : list str) :
  r <> [] \/ ps <> [] -> Path_str (mkPath r ps) = r ++ join [SLASH] ps.
Proof.
  unfold Path_str. simpl. destruct r, ps; try reflexivity.
  intros [H|H]; contradiction.
Qed.

(** For a directory given in the form pathlib prints it (other than
    ["."]), the parts computed for a file below it are its relative parts. *)
Lemma path_parts_of_file (directory : str) (segs : list str) :
  Path_str (Path_of directory) = directory -> directory <> [DOT] ->
  segs <> [] -> Forall (fun x => clean x = true) segs ->
  path_parts_of directory (Path_str (below (Path_of directory) segs)) = segs.
Proof.
  intros Hd Hdot Hne Hall. unfold path_parts_of, below.
  destruct (strip_join Hne Hall) as [Hs1 Hs2].
  destruct (Path_of directory) as [r ps]. cbn [root parts].
  destruct ps as [|p ps].
  - destruct r as [|c r]; [now symmetry in Hd|].
    rewrite Path_str_nonempty in Hd by (left; discriminate).
    rewrite Path_str_nonempty by (left; discriminate).
    cbn [join] in Hd. rewrite app_nil_r in Hd. rewrite Hd. cbn [app].
    rewrite skipn_length_app, Hs1. now apply str_split_join.
  - rewrite Path_str_nonempty in Hd by (right; discriminate).
    rewrite Path_str_nonempty by (right; discriminate).
    rewrite join_app by (discriminate || assumption).
    rewrite app_assoc, Hd.
    rewrite skipn_length_app, Hs2. now apply str_split_join.
Qed.

Lemma Permutation_3_inv {A} (l : list A) (p q r : A) :
  Permutation l [p; q; r] ->
  l = [p; q; r] \/ l = [p; r; q] \/ l = [q; p; r]
  \/ l = [q; r; p] \/ l = [r; p; q] \/ l = [r; q; p].
Proof.
  intros H. destruct (Permutation_vs_cons_inv H) as [l1 [l2 E]]. subst l.
  apply Permutation_sym, Permutation_cons_app_inv in H.
  apply Permutation_length_2_inv in H as [H|H];
    destruct l1 as [|x1 [|x2 [|x3 l1]]]; simpl in H;
    try (injection H as ? ? ?; subst; simpl; tauto);
    try (injection H as ? ?; subst; simpl; tauto);
    try (subst l2; simpl; tauto).
  - injection H as ? ? H. now destruct l1.
  - injection H as ? ? H. now destruct l1.
Qed.

Lemma removelast_snoc {A} (l : list A) (x : A) : removelast (l ++ [x]) = l.
Proof. apply removelast_last. Qed.

(** One turn of the loop for a file that loads, below a directory given in
    the form pathlib prints it. *)
Lemma from_directory_step_loaded (w : World) (directory : str)
    (t : Collection) (segs : list str) (name : str) (request : RequestModel.t) :
  Path_str (Path_of directory) = directory -> directory <> [DOT] ->
  Forall (fun x => clean x = true) (segs ++ [name]) ->
  load_request_from_yaml w
    (Path_str (below (Path_of directory) (segs ++ [name]))) = inr request ->
  from_directory_step directory (t, w)
    (below (Path_of directory) (segs ++ [name]))
  = (add_request segs (Collection_path t) request t, w).
Proof.
  intros Hd Hdot Hall Hload. unfold from_directory_step. rewrite Hload.
  rewrite path_parts_of_file; try assumption.
  - now rewrite removelast_snoc.
  - now destruct segs.
Qed.

(** C4.  Let the files found below directory [a] be [a/b/x], [a/c/y] and
    [a/z], in any order, and let them load as [rx], [ry] and [rz].  Then
    the tree built from [a] is the root, holding [rz] alone, with two
    children, named [b] and [c], holding [rx] alone and [ry] alone and no
    children of their own: the file lying in the root directory itself went
    to the root. *)
Theorem tree_mirrors_directories (w : World) (a b c x y z : str)
    (rx ry rz : RequestModel.t) :
  Path_str (Path_of a) = a -> a <> [DOT] ->
  clean b = true -> clean c = true -> b <> c ->
  clean x = true -> clean y = true -> clean z = true ->
  Permutation (rglob w (Path_of a) (u "*.posting.yaml"))
    [ below (Path_of a) [b; x]; below (Path_of a) [c; y];
      below (Path_of a) [z] ] ->
  load_request_from_yaml w (Path_str (below (Path_of a) [b; x])) = inr rx ->
  load_request_from_yaml w (Path_str (below (Path_of a) [c; y])) = inr ry ->
  load_request_from_yaml w (Path_str (below (Path_of a) [z])) = inr rz ->
  exists children,
    fst (from_directory w a)
    = mkCollection (Path_of a) (Path_name (Path_of a)) [rz] children
    /\ Permutation children
         [ mkCollection (Path_div (Path_of a) b) b [rx] [];
           mkCollection (Path_div (Path_of a) c) c [ry] [] ].
Proof.
  intros Ha Hdot Hb Hc Hbc Hx Hy Hz Hfiles Hrx Hry Hrz.
  assert (Sx : forall t, from_directory_step a (t, w) (below (Path_of a) [b; x])
               = (add_request [b] (Collection_path t) rx t, w)).
  { intros t. apply (@from_directory_step_loaded w a t [b] x rx);
      try assumption; repeat constructor; assumption. }
  assert (Sy : forall t, from_directory_step a (t, w) (below (Path_of a) [c; y])
               = (add_request [c] (Collection_path t) ry t, w)).
  { intros t. apply (@from_directory_step_loaded w a t [c] y ry);
      try assumption; repeat constructor; assumption. }
  assert (Sz : forall t, from_directory_step a (t, w) (below (Path_of a) [z])
               = (add_request [] (Collection_path t) rz t, w)).
  { intros t. apply (@from_directory_step_loaded w a t [] z rz);
      try assumption; repeat constructor; assumption. }
  assert (Ebc : str_eqb b c = false) by now apply str_eqb_neq.
  assert (Ecb : str_eqb c b = false) by (apply str_eqb_neq; congruence).
  unfold from_directory.
  assert (Ed : directory_path_of w a = Path_of a)
    by (destruct a; [discriminate Ha|reflexivity]).
  rewrite Ed.
  replace (match a with [] => Path_str (Path_of a) | _ :: _ => a end) with a
    by (destruct a; [discriminate Ha|reflexivity]).
  apply Permutation_3_inv in Hfiles.
  destruct Hfiles as [-> | [-> | [-> | [-> | [-> | ->]]]]];
    cbn [fold_left];
    repeat (rewrite Sx || rewrite Sy || rewrite Sz);
    cbn [add_request enter fst app Collection_path Collection_name
         Collection_requests Collection_children];
    rewrite ?Ebc, ?Ecb;
    eexists; (split; [reflexivity|]);
    first [apply Permutation_refl | apply perm_swap].
Qed.

(* ================================================================= *)
(** * Further properties *)

(* ----------------------------------------------------------------- *)
(** ** [str_presenter] *)

(** What [str_presenter] keeps of a string is never longer than the
    string. *)
Theorem presented_never_longer (data : str) :
  List.length (presented data) <= List.length data.
Proof.
  destruct (in_dec N.eq_dec LF data) as [H|H].
  - rewrite presented_multiline by exact H.
    pose proof (splitlines_length data) as Hs.
    rewrite join_length in Hs. rewrite join_length, length_map.
    pose proof (total_length_rstrip_le (splitlines data)). lia.
  - rewrite presented_single_line by exact H. lia.
Qed.

Lemma splitlines_from_clean_bounded (n : nat) :
  forall s line, List.length s <= n ->
  (forall c, In c line -> is_linebreak c = false) ->
  forall l c, In l (splitlines_from line s) -> In c l -> is_linebreak c = false.
Proof.
  induction n as [|n IH]; intros s line Hn Hline l c Hl Hc.
  - destruct s; [|simpl in Hn; lia]. simpl in Hl.
    destruct line; [contradiction|]. destruct Hl as [<-|[]]. now apply Hline.
  - destruct s as [|c0 rest].
    + simpl in Hl. destruct line; [contradiction|].
      destruct Hl as [<-|[]]. now apply Hline.
    + simpl in Hn. simpl in Hl.
      assert (Hnil : forall x : char, In x [] -> is_linebreak x = false)
        by (intros x []).
      destruct (is_linebreak c0) eqn:E.
      * destruct Hl as [<-|Hl]; [now apply Hline|].
        destruct (char_eqb c0 CR); [destruct rest as [|d rest']|].
        -- contradiction.
        -- destruct (char_eqb d LF).
           ++ apply (IH rest' []) with (l := l); auto. simpl in Hn. lia.
           ++ apply (IH (d :: rest') []) with (l := l); auto. lia.
        -- apply (IH rest []) with (l := l); auto. lia.
      * apply (IH rest (line ++ [c0])) with (l := l); auto; [lia|].
        intros x Hx. apply in_app_iff in Hx as [Hx|[<-|[]]]; auto.
Qed.

Lemma splitlines_clean (s l : str) (c : char) :
  In l (splitlines s) -> In c l -> is_linebreak c = false.
Proof.
  apply (@splitlines_from_clean_bounded (List.length s) s []).
  - apply le_n.
  - intros x [].
Qed.

Lemma In_rstrip (l : str) (c : char) : In c (rstrip l) -> In c l.
Proof.
  intros H. destruct (rstrip_prefix l) as [t E]. rewrite E.
  apply in_or_app. now left.
Qed.

Lemma In_join (sep : str) (ls : list str) (c : char) :
  In c (join sep ls) -> In c sep \/ exists l, In l ls /\ In c l.
Proof.
  induction ls as [|l ls IH]; [intros []|].
  destruct ls as [|l' ls].
  - intros H. right. exists l. split; [now left|exact H].
  - change (join sep (l :: l' :: ls)) with (l ++ sep ++ join sep (l' :: ls)).
    intros H. apply in_app_iff in H as [H|H].
    + right. exists l. split; [now left|exact H].
    + apply in_app_iff in H as [H|H]; [now left|].
      destruct (IH H) as [H'|[x [Hx Hc]]]; [now left|].
      right. exists x. split; [now right|exact Hc].
Qed.

(** In what is kept of a string with a newline, [\n] is the only line
    boundary left: [\r\n], [\r] and the others are replaced by it. *)
Theorem presented_line_boundaries (data : str) :
  In LF data ->
  forall c, In c (presented data) -> is_linebreak c = true -> c = LF.
Proof.
  intros Hnl c Hc Hlb. rewrite presented_multiline in Hc by exact Hnl.
  apply In_join in Hc as [[<-|[]]|[l [Hl Hc]]]; [reflexivity|].
  apply in_map_iff in Hl as [l0 [<- Hl0]]. apply In_rstrip in Hc.
  rewrite (splitlines_clean _ _ _ Hl0 Hc) in Hlb. discriminate Hlb.
Qed.

Lemma splitlines_from_line (l rest acc : str) :
  (forall c, In c l -> is_linebreak c = false) ->
  splitlines_from acc (l ++ rest) = splitlines_from (acc ++ l) rest.
Proof.
  revert acc. induction l as [|c l IH]; intros acc H; simpl.
  - now rewrite app_nil_r.
  - rewrite (H c) by now left.
    rewrite IH by (intros x Hx; apply H; now right).
    now rewrite <- app_assoc.
Qed.

Lemma splitlines_join (ls : list str) :
  ls <> [] ->
  (forall l c, In l ls -> In c l -> is_linebreak c = false) ->
  last ls [] <> [] ->
  splitlines (join [LF] ls) = ls.
Proof.
  unfold splitlines. induction ls as [|l ls IH]; [contradiction|].
  intros _ Hclean Hlast. destruct ls as [|l' ls].
  - simpl in *. rewrite <- (app_nil_r l) at 1.
    rewrite splitlines_from_line by (intros c; apply Hclean; now left).
    simpl. destruct l; [contradiction|reflexivity].
  - change (join [LF] (l :: l' :: ls)) with (l ++ LF :: join [LF] (l' :: ls)).
    rewrite splitlines_from_line by (intros c; apply Hclean; now left).
    cbn [app splitlines_from]. change (is_linebreak LF) with true.
    change (char_eqb LF CR) with false. cbv iota. f_equal.
    apply IH; [discriminate| |exact Hlast].
    intros x c Hx. apply Hclean. now right.
Qed.

(** A text made of lines without trailing whitespace, joined by [\n], the
    last line not empty, is kept as it is. *)
Theorem presented_fixed_point (ls : list str) :
  ls <> [] ->
  (forall l c, In l ls -> In c l -> is_linebreak c = false) ->
  (forall l, In l ls -> rstrip l = l) ->
  last ls [] <> [] ->
  presented (join [LF] ls) = join [LF] ls.
Proof.
  intros Hne Hclean Hstrip Hlast.
  destruct (in_dec N.eq_dec LF (join [LF] ls)) as [H|H].
  - rewrite presented_multiline by exact H.
    rewrite splitlines_join by assumption. f_equal.
    clear -Hstrip. induction ls as [|l ls IH]; [reflexivity|]. simpl.
    rewrite Hstrip by now left. rewrite IH; [reflexivity|].
    intros x Hx. apply Hstrip. now right.
  - now apply presented_single_line.
Qed.

Lemma splitlines_from_terminated_bounded (n : nat) :
  forall s line, List.length s <= n -> s <> [] ->
  is_linebreak (last s LF) = true ->
  List.length (join [LF] (splitlines_from line s)) + 1
  <= List.length line + List.length s.
Proof.
  induction n as [|n IH]; intros s line Hn Hne Hlast.
  - destruct s; [contradiction|simpl in Hn; lia].
  - destruct s as [|c rest]; [contradiction|]. simpl in Hn.
    cbn [splitlines_from].
    destruct (is_linebreak c) eqn:E.
    + pose proof (join_cons_length line) as Hj.
      destruct rest as [|d rest'].
      * destruct (char_eqb c CR); simpl; lia.
      * assert (Hrest : forall l, List.length
                   (join [LF] (splitlines_from l (d :: rest'))) + 1
                 <= List.length l + List.length (d :: rest')).
        { intros l. apply IH; [lia|discriminate|exact Hlast]. }
        destruct (char_eqb c CR); [destruct (char_eqb d LF)|].
        -- destruct rest' as [|d' rest''].
           ++ simpl. lia.
           ++ assert (List.length
                        (join [LF] (splitlines_from [] (d' :: rest''))) + 1
                      <= List.length (@nil char) + List.length (d' :: rest'')).
              { apply IH; [simpl in *; lia|discriminate|exact Hlast]. }
              specialize (Hj (splitlines_from [] (d' :: rest''))).
              simpl in *. lia.
        -- specialize (Hj (splitlines_from [] (d :: rest'))).
           specialize (Hrest []). simpl in *. lia.
        -- specialize (Hj (splitlines_from [] (d :: rest'))).
           specialize (Hrest []). simpl in *. lia.
    + destruct rest as [|d rest'].
      * simpl in Hlast. congruence.
      * assert (H : List.length
                      (join [LF] (splitlines_from (line ++ [c]) (d :: rest'))) + 1
                    <= List.length (line ++ [c]) + List.length (d :: rest')).
        { apply IH; [lia|discriminate|exact Hlast]. }
        rewrite length_app in H. simpl in *. lia.
Qed.

(** A string with a newline that ends at a line boundary comes out
    shorter: its last line boundary is dropped. *)
Theorem presented_drops_final_newline (t : str) (c : char) :
  In LF (t ++ [c]) -> is_linebreak c = true ->
  List.length (presented (t ++ [c])) < List.length (t ++ [c])
  /\ presented (t ++ [c]) <> t ++ [c].
Proof.
  intros Hnl Hc.
  assert (Hlt : List.length (presented (t ++ [c])) < List.length (t ++ [c])).
  { rewrite presented_multiline by exact Hnl.
    assert (Hs : List.length (join [LF] (splitlines (t ++ [c]))) + 1
                 <= List.length (@nil char) + List.length (t ++ [c])).
    { apply (@splitlines_from_terminated_bounded (List.length (t ++ [c]))).
      - apply le_n.
      - now destruct t.
      - now rewrite last_last. }
    rewrite join_length in Hs. rewrite join_length, length_map.
    pose proof (total_length_rstrip_le (splitlines (t ++ [c]))).
    change (List.length (@nil char)) with 0 in Hs. lia. }
  split; [exact Hlt|]. intros E. rewrite E in Hlt. lia.
Qed.

(* ----------------------------------------------------------------- *)
(** ** The document written and [load_request_from_yaml] *)

Lemma lookup_Some_keys {A} (k : str) (v : A) (d : list (str * A)) :
  lookup k d = Some v -> In k (keys d).
Proof.
  intros H. destruct (in_dec (list_eq_dec N.eq_dec) k (keys d)) as [Hin|Hin];
    [exact Hin|].
  apply lookup_None_keys in Hin. congruence.
Qed.

(** A field that is not excluded, not [None] and not at its default is
    written: the document has its key, and the dumped dict holds the dumped
    value under it. *)
Theorem encode_writes_other_values (self : RequestModel.t) (k : str)
    (info : FieldInfo) (v : pyobj) :
  lookup k (model_fields cRequestModel) = Some info ->
  getattr (RequestModel_obj self) k = inr v ->
  exclude info = false -> is_none v = false -> is_default info v = false ->
  In k (document_keys (encode self))
  /\ getattr_item (model_dump self) k = Some (to_python v).
Proof.
  intros Hf Hv Hex Hn Hd.
  assert (Hv' : lookup k (RequestModel_dict self) = Some v).
  { unfold getattr, RequestModel_obj in Hv.
    destruct (lookup k (RequestModel_dict self)); [|discriminate Hv].
    now injection Hv as ->. }
  assert (Hl : lookup k (flat_map (dump_attr to_python (model_fields cRequestModel))
                           (RequestModel_dict self)) = Some (to_python v)).
  { rewrite lookup_dump by apply RequestModel_dict_NoDup.
    now rewrite Hv', Hf, Hex, Hn, Hd. }
  split; [|exact Hl].
  unfold encode. rewrite model_dump_unfold, document_keys_dump.
  apply in_map_iff. exists k. split.
  - apply RequestModel_dict_keys_presented with (self := self).
    now apply lookup_Some_keys in Hv'.
  - now apply lookup_Some_keys in Hl.
Qed.

Lemma dump_keys_filter (f : pyobj -> pyobj) (fields : list (str * FieldInfo))
    (attrs : dict) :
  NoDup (keys attrs) ->
  keys (flat_map (dump_attr f fields) attrs)
  = filter (fun k => existsb (str_eqb k)
                       (keys (flat_map (dump_attr f fields) attrs)))
      (keys attrs).
Proof.
  induction attrs as [|[k0 v0] attrs IH]; intros Hnd; [reflexivity|].
  inversion Hnd as [|? ? Hk0 Hnd']; subst.
  assert (Hrest : forall X : list str,
             filter (fun k => existsb (str_eqb k)
                                (X ++ keys (flat_map (dump_attr f fields) attrs)))
               (keys attrs)
             = filter (fun k => existsb (str_eqb k)
                                  (keys (flat_map (dump_attr f fields) attrs)))
                 (keys attrs) \/ exists x, In x X /\ In x (keys attrs)).
  { intros X. destruct (existsb (fun x => existsb (str_eqb x) (keys attrs)) X)
      eqn:E.
    - right. apply existsb_exists in E as [x [Hx E]].
      apply existsb_exists in E as [y [Hy E]]. apply str_eqb_eq in E.
      subst y. now exists x.
    - left. apply filter_ext_in. intros k Hk. rewrite existsb_app.
      destruct (existsb (str_eqb k) X) eqn:E'; [|reflexivity].
      apply existsb_exists in E' as [x [Hx E']]. apply str_eqb_eq in E'.
      subst x. exfalso.
      assert (existsb (fun x => existsb (str_eqb x) (keys attrs)) X = true).
      { apply existsb_exists. exists k. split; [exact Hx|].
        apply existsb_exists. exists k. split; [exact Hk|apply str_eqb_refl]. }
      congruence. }
  cbn [flat_map]. unfold keys at 1 2. rewrite map_app. fold (@keys pyobj).
  change (map fst (dump_attr f fields (k0, v0)))
    with (keys (dump_attr f fields (k0, v0))).
  cbn [keys map fst filter].
  change (map fst attrs) with (keys attrs).
  change (map fst (flat_map (dump_attr f fields) attrs))
    with (keys (flat_map (dump_attr f fields) attrs)).
  destruct (dump_attr_cases f fields (k0, v0)) as [E|[E _]]; rewrite E;
    cbn [keys map fst app existsb].
  - assert (existsb (str_eqb k0) (keys (flat_map (dump_attr f fields) attrs))
            = false) as ->.
    { destruct (existsb (str_eqb k0) _) eqn:E'; [|reflexivity].
      apply existsb_exists in E' as [y [Hy E']]. apply str_eqb_eq in E'.
      subst y. apply dump_keys_attrs in Hy. contradiction. }
    now apply IH.
  - rewrite str_eqb_refl. cbn [orb]. f_equal. rewrite (IH Hnd') at 1.
    destruct (Hrest [k0]) as [H|[x [[<-|[]] Hx]]]; [|contradiction].
    symmetry. exact H.
Qed.

Lemma map_presented_fixed (l : list str) :
  Forall (fun k => presented k = k) l -> map presented l = l.
Proof.
  induction 1 as [|k l Hk Hl IH]; [reflexivity|]. simpl. now rewrite Hk, IH.
Qed.

(** The keys of a document are the names of the persisted fields, in the
    order the class declares them, some left out: nothing is sorted, and no
    key comes twice. *)
Theorem encode_keeps_declaration_order (self : RequestModel.t) :
  document_keys (encode self)
  = filter (fun k => existsb (str_eqb k) (document_keys (encode self)))
      persisted_fields.
Proof.
  unfold encode. rewrite model_dump_unfold, document_keys_dump.
  rewrite map_presented_fixed by apply model_dump_keys_presented.
  rewrite dump_keys_filter at 1 by apply RequestModel_dict_NoDup.
  set (D := keys (flat_map (dump_attr to_python (model_fields cRequestModel))
                    (RequestModel_dict self))).
  assert (Hex : forall k, In k (keys (RequestModel_dict self)) ->
                ~ In k persisted_fields -> existsb (str_eqb k) D = false).
  { intros k Hk Hp. destruct (existsb (str_eqb k) D) eqn:E; [|reflexivity].
    apply existsb_exists in E as [y [Hy E]]. apply str_eqb_eq in E. subst y.
    exfalso. apply Hp. apply encode_keys_persisted with (self := self).
    unfold encode. rewrite model_dump_unfold, document_keys_dump.
    rewrite map_presented_fixed by apply model_dump_keys_presented.
    exact Hy. }
  change (keys (RequestModel_dict self))
    with [ u "name"; u "description"; u "method"; u "url"; u "path";
           u "json_body"; u "form_data"; u "content"; u "auth"; u "headers";
           u "params"; u "cookies"; u "posting_version"; u "options" ] in *.
  unfold persisted_fields. cbn [filter].
  rewrite (Hex (u "path")), (Hex (u "auth")), (Hex (u "cookies"));
    try reflexivity;
    try (simpl; tauto);
    try (vm_compute; intros H;
         repeat (destruct H as [H|H]; [discriminate H|]); exact H).
Qed.

Lemma bind_inr {A B} (m : result A) (k : A -> result B) (b : B) :
  bind m k = inr b -> exists a, m = inr a /\ k a = inr b.
Proof. destruct m as [e|a]; [discriminate|]. intros H. now exists a. Qed.

(** A request that loads has the path of its file, whatever the document
    says. *)
Theorem loaded_request_has_its_path (w : World) (file_path : str)
    (request : RequestModel.t) :
  load_request_from_yaml w file_path = inr request ->
  RequestModel.path request = Some (Path_of file_path).
Proof.
  unfold load_request_from_yaml, decode. intros H.
  apply bind_inr in H as [file [_ H]].
  apply bind_inr in H as [data [_ H]].
  destruct data; try discriminate H.
  destruct (lookup (u "path") items) eqn:E; [discriminate H|].
  unfold RequestModel_init in H.
  repeat (apply bind_inr in H as [? [? H]]).
  injection H as <-. cbn [RequestModel.path].
  match goal with
  | Hp : field (validate_optional validate_path) _ _ _ = inr ?x |- ?x = _ =>
      unfold field in Hp; rewrite lookup_app, E in Hp; simpl in Hp;
      now injection Hp
  end.
Qed.

(* ----------------------------------------------------------------- *)
(** ** [Collection.from_directory] *)

Lemma from_directory_unfold (w : World) (directory : str) :
  from_directory w directory
  = fold_left (from_directory_step (directory_string_of w directory))
      (rglob w (directory_path_of w directory) (u "*.posting.yaml"))
      (mkCollection (directory_path_of w directory)
         (Path_name (directory_path_of w directory)) [] [], w).
Proof. reflexivity. Qed.

Lemma from_directory_fold (P : Collection -> Prop) (directory : str) :
  (forall path_parts request c,
     P c -> P (add_request path_parts (Collection_path c) request c)) ->
  forall request_files t w,
    P t -> P (fst (fold_left (from_directory_step directory) request_files (t, w))).
Proof.
  intros Hadd. induction request_files as [|f files IH]; intros t w Ht.
  - exact Ht.
  - cbn [fold_left]. unfold from_directory_step at 2.
    destruct (load_request_from_yaml w (Path_str f)) as [e|request].
    + now apply IH.
    + apply IH. now apply Hadd.
Qed.

(** The root of the tree has the path of the directory searched and its
    last component as name, whatever is found; when nothing is found the
    root is empty and nothing is printed. *)
Theorem from_directory_root (w : World) (directory : str) :
  Collection_path (fst (from_directory w directory))
  = directory_path_of w directory
  /\ Collection_name (fst (from_directory w directory))
     = Path_name (directory_path_of w directory)
  /\ (rglob w (directory_path_of w directory) (u "*.posting.yaml") = [] ->
      from_directory w directory
      = (mkCollection (directory_path_of w directory)
           (Path_name (directory_path_of w directory)) [] [], w)).
Proof.
  rewrite from_directory_unfold.
  assert (H : Collection_path
                (fst (fold_left (from_directory_step (directory_string_of w directory))
                        (rglob w (directory_path_of w directory) (u "*.posting.yaml"))
                        (mkCollection (directory_path_of w directory)
                           (Path_name (directory_path_of w directory)) [] [], w)))
              = directory_path_of w directory
              /\ Collection_name
                   (fst (fold_left (from_directory_step (directory_string_of w directory))
                           (rglob w (directory_path_of w directory) (u "*.posting.yaml"))
                           (mkCollection (directory_path_of w directory)
                              (Path_name (directory_path_of w directory)) [] [], w)))
                 = Path_name (directory_path_of w directory)).
  { apply (from_directory_fold
             (fun c => Collection_path c = directory_path_of w directory
                       /\ Collection_name c
                          = Path_name (directory_path_of w directory))).
    - intros path_parts request c [Hp Hn].
      now rewrite add_request_path, add_request_name.
    - now split. }
  destruct H as [Hp Hn]. split; [exact Hp|]. split; [exact Hn|].
  now intros ->.
Qed.

Lemma strs_eqb_iff (a b : list str) : strs_eqb a b = true <-> a = b.
Proof.
  revert b. induction a as [|x a IH]; intros [|y b]; split; intros H;
    try reflexivity; try discriminate.
  - simpl in H. apply andb_true_iff in H as [H1 H2]. apply str_eqb_eq in H1.
    apply IH in H2. congruence.
  - injection H as -> ->. simpl. rewrite str_eqb_refl. now apply IH.
Qed.

Lemma strs_eqb_refl (a : list str) : strs_eqb a a = true.
Proof. now apply strs_eqb_iff. Qed.

Section EnterOther.
Variable part other : str.
Variable descend : Collection -> Collection.
Variable new_collection : Collection.
Hypothesis descend_name :
  forall c, Collection_name (descend c) = Collection_name c.
Hypothesis new_name : Collection_name new_collection = part.
Hypothesis other_part : str_eqb other part = false.

Lemma str_eqb_other (x : str) :
  str_eqb x part = true -> str_eqb x other = false.
Proof.
  intros H. apply str_eqb_eq in H. subst x.
  destruct (str_eqb part other) eqn:E; [|reflexivity].
  apply str_eqb_eq in E. subst other. now rewrite str_eqb_refl in other_part.
Qed.

Lemma find_enter_other (children : list Collection) :
  find (fun child => str_eqb (Collection_name child) other)
    (enter part descend new_collection children)
  = find (fun child => str_eqb (Collection_name child) other) children.
Proof.
  induction children as [|child others IH]; simpl.
  - rewrite descend_name, new_name.
    now rewrite str_eqb_other by apply str_eqb_refl.
  - destruct (str_eqb (Collection_name child) part) eqn:E; simpl.
    + rewrite descend_name. now rewrite (str_eqb_other _ E).
    + now rewrite IH.
Qed.
End EnterOther.

Lemma requests_at_new (path_parts : list str) (p : Path) (n : str) :
  requests_at path_parts (mkCollection p n [] []) = [].
Proof. destruct path_parts; reflexivity. Qed.

Lemma requests_at_add_request (q : list str) :
  forall (p : list str) (subpath : Path) (request : RequestModel.t)
         (c : Collection),
    requests_at p (add_request q subpath request c)
    = if strs_eqb p q then requests_at p c ++ [request] else requests_at p c.
Proof.
  induction q as [|q1 qs IH]; intros p subpath request c.
  - destruct p as [|p1 ps]; [reflexivity|]. destruct c; reflexivity.
  - destruct p as [|p1 ps]; [destruct c; reflexivity|].
    unfold requests_at. cbn [add_request node_at Collection_children strs_eqb].
    destruct (str_eqb p1 q1) eqn:E.
    + apply str_eqb_eq in E. subst p1.
      rewrite find_enter; [|intros c'; apply add_request_name|reflexivity].
      cbn [andb].
      destruct (find (fun child => str_eqb (Collection_name child) q1)
                  (Collection_children c)) as [child|].
      * apply IH.
      * specialize (IH ps (Path_div subpath q1) request
                      (mkCollection (Path_div subpath q1) q1 [] [])).
        unfold requests_at in IH. rewrite IH.
        fold (requests_at ps (mkCollection (Path_div subpath q1) q1 [] [])).
        rewrite requests_at_new. now destruct (strs_eqb ps qs).
    + rewrite find_enter_other;
        [reflexivity|intros c'; apply add_request_name|reflexivity|exact E].
Qed.

Lemma from_directory_placed (directory : str) (w : World) (chain : list str)
    (request_files : list Path) :
  forall (t : Collection) (w' : World),
    cwd w' = cwd w -> entries w' = entries w ->
    requests_at chain
      (fst (fold_left (from_directory_step directory) request_files (t, w')))
    = requests_at chain t ++ placed w directory chain request_files.
Proof.
  induction request_files as [|f files IH]; intros t w' Hc He.
  - simpl. now rewrite app_nil_r.
  - cbn [fold_left]. unfold from_directory_step at 2.
    rewrite (@load_request_from_yaml_files w w' _ Hc He).
    unfold placed. cbn [flat_map]. fold (placed w directory chain files).
    destruct (load_request_from_yaml w (Path_str f)) as [e|request].
    + now rewrite IH.
    + rewrite IH by assumption. rewrite requests_at_add_request.
      fold (chain_of directory f).
      destruct (strs_eqb chain (chain_of directory f));
        now rewrite <- ?app_assoc.
Qed.

(** The node a chain of names leads to holds exactly the requests of the
    files that load and whose directory chain is that chain, in the order
    they were found (and no request when no node is there). *)
Theorem from_directory_places_requests (w : World) (directory : str)
    (chain : list str) :
  requests_at chain (fst (from_directory w directory))
  = placed w (directory_string_of w directory) chain
      (rglob w (directory_path_of w directory) (u "*.posting.yaml")).
Proof.
  rewrite from_directory_unfold.
  rewrite (@from_directory_placed _ w chain _ _ w eq_refl eq_refl).
  now rewrite requests_at_new.
Qed.

Lemma paths_consistent_iff (c : Collection) :
  paths_consistent c
  <-> Forall (fun c' => Collection_path c'
                        = Path_div (Collection_path c) (Collection_name c')
                        /\ paths_consistent c')
        (Collection_children c).
Proof.
  destruct c as [p n rs cs]. cbn [paths_consistent Collection_children
    Collection_path].
  induction cs as [|c cs IH]; split; intros H.
  - constructor.
  - exact I.
  - destruct H as [H1 [H2 H3]]. constructor; [now split|now apply IH].
  - inversion H as [|? ? [H1 H2] H3]; subst. repeat split; try assumption.
    now apply IH.
Qed.

Lemma enter_Forall_named (part : str) (descend : Collection -> Collection)
    (new_collection : Collection) (P : Collection -> Prop)
    (children : list Collection) :
  (forall c, P c -> Collection_name c = part -> P (descend c)) ->
  P (descend new_collection) ->
  Forall P children ->
  Forall P (enter part descend new_collection children).
Proof.
  intros Hd Hn. induction 1 as [|child others Hc Ho IH]; simpl.
  - constructor; [exact Hn|constructor].
  - destruct (str_eqb (Collection_name child) part) eqn:E.
    + constructor; [|exact Ho]. apply Hd; [exact Hc|now apply str_eqb_eq].
    + constructor; [exact Hc|exact IH].
Qed.

Lemma add_request_paths_consistent (path_parts : list str) :
  forall (request : RequestModel.t) (c : Collection),
    paths_consistent c ->
    paths_consistent (add_request path_parts (Collection_path c) request c).
Proof.
  induction path_parts as [|part rest IH]; intros request c Hc.
  - destruct c as [p n rs cs]. exact Hc.
  - apply paths_consistent_iff in Hc. apply paths_consistent_iff.
    cbn [add_request Collection_children Collection_path].
    apply enter_Forall_named; [| |exact Hc].
    + intros c' [Hp Hc'] Hname.
      rewrite add_request_path, add_request_name. split; [exact Hp|].
      rewrite <- Hname, <- Hp. now apply IH.
    + rewrite add_request_path, add_request_name. split; [reflexivity|].
      apply (IH request (mkCollection (Path_div (Collection_path c) part)
                           part [] [])).
      exact I.
Qed.

(** In the tree [from_directory] returns, the path of every node below the
    root is the path of its parent extended by its own name. *)
Theorem from_directory_paths (w : World) (directory : str) :
  paths_consistent (fst (from_directory w directory)).
Proof.
  rewrite from_directory_unfold. apply from_directory_fold.
  - intros path_parts request c. apply add_request_paths_consistent.
  - exact I.
Qed.

Lemma populated_iff (c : Collection) :
  populated c
  <-> all_requests c <> [] /\ Forall populated (Collection_children c).
Proof.
  destruct c as [p n rs cs]. cbn [populated Collection_children].
  assert (E : (fix each (cs : list Collection) : Prop :=
                 match cs with
                 | [] => True
                 | c' :: cs' => populated c' /\ each cs'
                 end) cs <-> Forall populated cs).
  { induction cs as [|c cs IH]; split; intros H.
    - constructor.
    - exact I.
    - destruct H as [Hc Hcs]. constructor; [exact Hc|now apply IH].
    - inversion H; subst. split; [assumption|now apply IH]. }
  now rewrite E.
Qed.

Lemma add_request_not_empty (path_parts : list str) (subpath : Path)
    (request : RequestModel.t) (c : Collection) :
  all_requests (add_request path_parts subpath request c) <> [].
Proof.
  intros E. pose proof (add_request_all_requests path_parts subpath request c) as H.
  rewrite E in H. now apply Permutation_nil in H.
Qed.

Lemma add_request_populated (path_parts : list str) :
  forall (subpath : Path) (request : RequestModel.t) (c : Collection),
    Forall populated (Collection_children c) ->
    populated (add_request path_parts subpath request c).
Proof.
  induction path_parts as [|part rest IH]; intros subpath request c Hc;
    apply populated_iff; (split; [apply add_request_not_empty|]).
  - exact Hc.
  - cbn [add_request Collection_children].
    apply enter_Forall_named; [| |exact Hc].
    + intros c' Hc' _. apply IH. now apply populated_iff in Hc'.
    + apply IH. constructor.
Qed.

(** No node below the root is empty: each of them, at any depth, holds a
    request or leads to one.  A directory without request files below it
    gets no node. *)
Theorem from_directory_no_empty_nodes (w : World) (directory : str) :
  Forall populated (Collection_children (fst (from_directory w directory))).
Proof.
  rewrite from_directory_unfold.
  apply (from_directory_fold
           (fun c => Forall populated (Collection_children c))).
  - intros path_parts request c Hc.
    pose proof (@add_request_populated path_parts (Collection_path c) request
                  c Hc) as H.
    now apply populated_iff in H.
  - constructor.
Qed.

(** For a directory in the form pathlib prints it (the working directory
    when no directory is given), the chain walked for a file is the list of
    directories between the directory and the file. *)
Theorem chain_of_file (w : World) (directory : str) (segs : list str)
    (name : str) :
  Path_of (directory_string_of w directory) = directory_path_of w directory ->
  Path_str (directory_path_of w directory) = directory_string_of w directory ->
  directory_string_of w directory <> [DOT] ->
  Forall (fun x => clean x = true) (segs ++ [name]) ->
  chain_of (directory_string_of w directory)
    (below (directory_path_of w directory) (segs ++ [name]))
  = segs.
Proof.
  intros H1 H2 Hdot Hall. unfold chain_of. rewrite <- H1.
  rewrite path_parts_of_file; try assumption.
  - apply removelast_snoc.
  - now rewrite H1.
  - now destruct segs.
Qed.

(** Given ["."], the parts of a file are cut one character too late: a
    file in directory [c :: s] is walked to a node named [s]. *)
Theorem chain_of_file_below_dot (c : char) (s name : str) :
  clean s = true -> clean name = true ->
  chain_of [DOT] (below (Path_of [DOT]) [c :: s; name]) = [s].
Proof.
  intros Hs Hn. unfold chain_of, path_parts_of, below.
  assert (Hall : Forall (fun x => clean x = true) [s; name])
    by (repeat constructor; assumption).
  assert (Hne : [s; name] <> []) by discriminate.
  destruct (strip_join Hne Hall) as [Hstrip _].
  change (Path_str (mkPath (root (Path_of [DOT]))
                      (parts (Path_of [DOT]) ++ [c :: s; name])))
    with (c :: join [SLASH] [s; name]).
  change (skipn (List.length [DOT]) (c :: join [SLASH] [s; name]))
    with (join [SLASH] [s; name]).
  rewrite Hstrip, str_split_join by assumption. reflexivity.
Qed.

End Posting.

(* ================================================================= *)
(** * Instances *)

(** C1 as the specification states it fails at [trailing_space_request]:
    neither [cookies] nor [path] is set, the document reads back, yet the
    description that comes back is not the one that went in. *)
Lemma roundtrip_fails_on_trailing_space :
  RequestModel.cookies (trailing_space_request (u "1.0")) = []
  /\ RequestModel.path (trailing_space_request (u "1.0")) = None
  /\ exists e,
       decode (u "1.0") (encode (u "1.0") (trailing_space_request (u "1.0")))
         (u "x.posting.yaml") = inr e
       /\ ~ same_but_cookies_and_path e (trailing_space_request (u "1.0")).
Proof.
  split; [reflexivity|]. split; [reflexivity|].
  eexists. split; [vm_compute; reflexivity|].
  intros [_ [H _]]. vm_compute in H. discriminate H.
Qed.

Lemma roundtrip_of_stable_requests_witness :
  exists e,
    decode (u "1.0") (encode (u "1.0") (sample_request (u "1.0")))
      (u "a/b/x.posting.yaml") = inr e
    /\ same_persisted e (sample_request (u "1.0")).
Proof.
  apply (@roundtrip_of_stable_requests (u "1.0") (sample_request (u "1.0"))
           (u "a/b/x.posting.yaml")); reflexivity.
Defined.


Lemma tree_mirrors_directories_witness :
  exists children,
    fst (from_directory (u "1.0")
           (sample_world (u "1.0")
              (encode (u "1.0") (trailing_space_request (u "1.0"))))
           (u "a"))
    = mkCollection (Path_of (u "a")) (u "a")
        [reloaded (u "1.0") (RequestModel_default (u "1.0"))
           (u "a/z.posting.yaml")]
        children
    /\ Permutation children
         [ mkCollection (Path_of (u "a/b")) (u "b")
             [reloaded (u "1.0") (sample_request (u "1.0"))
                (u "a/b/x.posting.yaml")] [];
           mkCollection (Path_of (u "a/c")) (u "c")
             [reloaded (u "1.0") (trailing_space_request (u "1.0"))
                (u "a/c/y.posting.yaml")] [] ].
Proof.
  apply (@tree_mirrors_directories (u "1.0")
           (sample_world (u "1.0")
              (encode (u "1.0") (trailing_space_request (u "1.0"))))
           (u "a") (u "b") (u "c")
           (u "x.posting.yaml") (u "y.posting.yaml") (u "z.posting.yaml"));
    try reflexivity; discriminate.
Defined.

(** Three files of which one cannot be parsed: the tree holds the two
    others, and one line tells of the failure. *)
Example fault_isolation :
  let w := sample_world (u "1.0") Unparsable in
  fst (from_directory (u "1.0") w (u "a"))
  = mkCollection (Path_of (u "a")) (u "a")
      [reloaded (u "1.0") (RequestModel_default (u "1.0")) (u "a/z.posting.yaml")]
      [ mkCollection (Path_of (u "a/b")) (u "b")
          [reloaded (u "1.0") (sample_request (u "1.0")) (u "a/b/x.posting.yaml")]
          [] ]
  /\ stdout (snd (from_directory (u "1.0") w (u "a")))
     = [FailedToLoad (Path_of (u "a/c/y.posting.yaml")) YAMLError].
Proof. split; vm_compute; reflexivity. Qed.

(** Given as ["./a"], the same directory yields a flat tree: the parts of a
    file are cut after as many characters as the argument has, not as many
    as the path pathlib made of it. *)
Example directory_not_in_pathlib_form :
  fst (from_directory (u "1.0") (sample_world (u "1.0") Unparsable) (u "./a"))
  = mkCollection (Path_of (u "a")) (u "a")
      [ reloaded (u "1.0") (sample_request (u "1.0")) (u "a/b/x.posting.yaml");
        reloaded (u "1.0") (RequestModel_default (u "1.0")) (u "a/z.posting.yaml") ]
      [].
Proof. vm_compute. reflexivity. Qed.

(** Cookies and a path on the request leave no trace in its document. *)
Example cookies_and_path_not_written :
  document_keys
    (encode (u "1.0")
       (RequestModel.mk (u "n") [] GET [] (Some (Path_of (u "/tmp/n.posting.yaml")))
          None None None None [] [] [Cookie.mk (u "sid") (u "1") true]
          (u "1.0") Options_default))
  = [u "name"].
Proof. reflexivity. Qed.

(* ================================================================= *)
(** * Instances of the further properties *)

Lemma presented_line_boundaries_witness :
  Forall (fun c => is_linebreak c = true -> c = LF)
    (presented (u "a" ++ [CR; LF] ++ u "b")).
Proof.
  apply Forall_forall.
  apply (@presented_line_boundaries (u "a" ++ [CR; LF] ++ u "b")).
  vm_compute. tauto.
Defined.

Lemma presented_fixed_point_witness :
  presented (join [LF] [u "a"; u "b"]) = join [LF] [u "a"; u "b"].
Proof.
  apply (@presented_fixed_point [u "a"; u "b"]).
  - discriminate.
  - intros l c [<-|[<-|[]]] [<-|[]]; reflexivity.
  - intros l [<-|[<-|[]]]; reflexivity.
  - discriminate.
Defined.

Lemma presented_drops_final_newline_witness :
  List.length (presented (u "a" ++ [LF])) < List.length (u "a" ++ [LF])
  /\ presented (u "a" ++ [LF]) <> u "a" ++ [LF].
Proof.
  apply (@presented_drops_final_newline (u "a") LF).
  - vm_compute. tauto.
  - reflexivity.
Defined.

Lemma encode_writes_other_values_witness :
  In (u "url") (document_keys (encode (u "1.0") (sample_request (u "1.0"))))
  /\ getattr_item (model_dump (u "1.0") (sample_request (u "1.0"))) (u "url")
     = Some (to_python (u "1.0") (OStr (u "https://example.org/login"))).
Proof.
  apply (@encode_writes_other_values (u "1.0") (sample_request (u "1.0"))
           (u "url") (Field (OStr []))); reflexivity.
Defined.

Lemma loaded_request_has_its_path_witness :
  RequestModel.path
    (reloaded (u "1.0") (sample_request (u "1.0")) (u "a/b/x.posting.yaml"))
  = Some (Path_of (u "a/b/x.posting.yaml")).
Proof.
  apply (@loaded_request_has_its_path (u "1.0")
           (sample_world (u "1.0") Unparsable) (u "a/b/x.posting.yaml")).
  vm_compute. reflexivity.
Defined.

Lemma chain_of_file_witness :
  chain_of (u "a") (below (Path_of (u "a")) [u "b"; u "x.posting.yaml"])
  = [u "b"].
Proof.
  apply (@chain_of_file (sample_world (u "1.0") Unparsable) (u "a") [u "b"]
           (u "x.posting.yaml")); try reflexivity.
  - discriminate.
  - repeat constructor.
Defined.

Lemma chain_of_file_below_dot_witness :
  chain_of [DOT] (below (Path_of [DOT]) [u "bb"; u "x.posting.yaml"]) = [u "b"].
Proof.
  apply (@chain_of_file_below_dot 98%N (u "b") (u "x.posting.yaml"));
    reflexivity.
Defined.

